(** * Yada: a shallow embedding of [yada.py]

    The three matchers ([find_direct], [find_reversed], [find_els]), the
    highlighter ([escape_html], [highlight_text]), the verse parser
    ([load_bible]) and the report assembler ([generate_html]) are embedded
    as Rocq functions, and the properties of the specification are stated
    and proved about them.

    Python strings are sequences of Unicode code points: a [str] is a list
    of integers.  Indices are integers as well ([str.find] answers [-1]).
    Names are those of the source; a trailing underscore marks a local name
    that a record field or a library function already has ([text_],
    [skip_], [length_]). *)

From Stdlib Require Import String Ascii DecimalString.
From Stdlib Require DecimalZ DecimalPos.
From Stdlib Require Import ZArith List Bool Lia Sorting.Sorted Sorting.Permutation.
Import ListNotations.

Local Open Scope Z_scope.

(** ** Strings *)

Definition str := list Z.

(** [len(l)], of a string or of a list. *)
Definition len {A : Type} (l : list A) : Z := Z.of_nat (length l).

(** Code points of an ASCII literal. *)
Fixpoint codes (s : string) : str :=
  match s with
  | EmptyString => []
  | String a s' => Z.of_N (N_of_ascii a) :: codes s'
  end.

Definition str_eqb (a b : str) : bool :=
  if list_eq_dec Z.eq_dec a b then true else false.

(** [range(a, b)] *)
Definition py_range (a b : Z) : list Z :=
  map (fun k => a + Z.of_nat k) (seq 0 (Z.to_nat (b - a))).

(** [str(n)] for an integer. *)
Definition str_of_int (n : Z) : str :=
  codes (DecimalString.NilZero.string_of_int (Z.to_int n)).

(** The double quote character. *)
Definition dq : str := [34].

(** [s.replace(c, by)] for a one-character [c]. *)
Definition replace_char (c : Z) (by_ : str) (s : str) : str :=
  flat_map (fun x => if x =? c then by_ else [x]) s.

(** [s[i]] for an index inside the string. *)
Definition char_at (s : str) (i : Z) : Z := nth (Z.to_nat i) s 0.

(** Python's slice index adjustment: a negative index counts from the end,
    and the result is clamped to [0 .. len]. *)
Definition adjust_index (n i : Z) : Z :=
  if i <? 0 then Z.max (i + n) 0 else Z.min i n.

(** [s[i:j]] *)
Definition py_slice (s : str) (i j : Z) : str :=
  let a := adjust_index (len s) i in
  let b := adjust_index (len s) j in
  firstn (Z.to_nat (b - a)) (skipn (Z.to_nat a) s).

(** [s[i:]] *)
Definition py_slice_from (s : str) (i : Z) : str :=
  skipn (Z.to_nat (adjust_index (len s) i)) s.

(** [''.join(parts)] *)
Definition join_empty (parts : list str) : str := concat parts.

(** [sep.join(parts)] *)
Fixpoint join (sep : str) (parts : list str) : str :=
  match parts with
  | [] => []
  | [p] => p
  | p :: ps => p ++ sep ++ join sep ps
  end.

(** Does [s] begin with [sub]? *)
Fixpoint starts_with (sub s : str) : bool :=
  match sub, s with
  | [], _ => true
  | _ :: _, [] => false
  | a :: sub', b :: s' => (a =? b) && starts_with sub' s'
  end.

(** The search of [str.find]: [s] is the part of the subject that starts at
    absolute index [i]. *)
Fixpoint find_from (sub s : str) (i : Z) : Z :=
  if starts_with sub s then i
  else match s with
       | [] => -1
       | _ :: s' => find_from sub s' (i + 1)
       end.

(** [s.find(sub, start)]: the lowest index [>= start] at which [sub] occurs,
    [-1] when there is none (also when [start > len(s)]). *)
Definition py_find (s sub : str) (start : Z) : Z :=
  let st := if start <? 0 then Z.max (start + len s) 0 else start in
  if len s <? st then -1 else find_from sub (skipn (Z.to_nat st) s) st.

(** ** Unicode data

    [str.upper], and the classes [\s], [\w], [\d] of [re] on [str] patterns,
    are fixed by the source for ASCII and come from the interpreter's
    Unicode database beyond it.  The database is not part of the repository:
    it is an interface here, with two properties of it: a character never
    uppercases to nothing, and a decimal digit has a value from 0 to 9. *)

Class UnicodeData := {
  to_upper_full : Z -> list Z;
  uni_isspace : Z -> bool;
  uni_isalnum : Z -> bool;
  uni_isdecimal : Z -> bool;
  uni_digit_value : Z -> Z;
  to_upper_full_nonempty : forall c, to_upper_full c <> [];
  uni_digit_value_range : forall c, uni_isdecimal c = true -> 0 <= uni_digit_value c <= 9
}.

Definition is_ascii (c : Z) : bool := (0 <=? c) && (c <? 128).

Definition ascii_upper (c : Z) : Z :=
  if (97 <=? c) && (c <=? 122) then c - 32 else c.

(** [[A-Za-z]] *)
Definition is_ascii_letter (c : Z) : bool :=
  ((65 <=? c) && (c <=? 90)) || ((97 <=? c) && (c <=? 122)).

Definition ascii_isspace (c : Z) : bool :=
  ((9 <=? c) && (c <=? 13)) || ((28 <=? c) && (c <=? 31)) || (c =? 32).

Definition ascii_isdigit (c : Z) : bool := (48 <=? c) && (c <=? 57).

Definition ascii_isword (c : Z) : bool :=
  is_ascii_letter c || ascii_isdigit c || (c =? 95).

(** ** Records of the program *)

(** One ELS hit: [{'skip', 'positions', 'cleaned'}]. *)
Record els_result := { skip : Z; positions : list Z; cleaned : str }.

(** One verse: [{'book', 'chapter', 'verse', 'text'}]. *)
Record Verse := { book : str; chapter : str; verse : str; text : str }.

Section Matchers.

Context {U : UnicodeData}.

(** The uppercase of one character: one to three code points. *)
Definition upper_cp (c : Z) : list Z :=
  if is_ascii c then [ascii_upper c] else to_upper_full c.

(** [s.upper()] *)
Definition upper (s : str) : str := flat_map upper_cp s.

(** [\s], [\w] and [\d] of a [str] pattern. *)
Definition re_space (c : Z) : bool :=
  if is_ascii c then ascii_isspace c else uni_isspace c.
Definition re_digit (c : Z) : bool :=
  if is_ascii c then ascii_isdigit c else uni_isdecimal c.
Definition re_word (c : Z) : bool :=
  if is_ascii c then ascii_isword c else uni_isalnum c.

(** *** find_direct, find_reversed

    Both functions run the same [while idx != -1] loop.  One iteration is
    [loop_step]; [scan_loop] runs it with fuel and answers [None] when the
    fuel is used up before the loop exits. *)

Record loop_state := { idx : Z; matches : list (Z * Z) }.

Definition loop_step (text_u needle : str) (st : loop_state) : option loop_state :=
  if idx st =? -1 then None
  else Some {| idx := py_find text_u needle (idx st + len needle);
               matches := matches st ++ [(idx st, len needle)] |}.

Fixpoint scan_loop (fuel : nat) (text_u needle : str) (st : loop_state)
  : option (list (Z * Z)) :=
  match fuel with
  | O => None
  | S fuel' =>
      match loop_step text_u needle st with
      | None => Some (matches st)
      | Some st' => scan_loop fuel' text_u needle st'
      end
  end.

(** The state at the loop's entry: [matches = []], [idx = text_u.find(needle)]. *)
Definition scan_start (text_u needle : str) : loop_state :=
  {| idx := py_find text_u needle 0; matches := [] |}.

Definition find_direct_fuel (fuel : nat) (text_ term : str) : option (list (Z * Z)) :=
  let text_u := upper text_ in
  let term_u := upper term in
  scan_loop fuel text_u term_u (scan_start text_u term_u).

Definition find_reversed_fuel (fuel : nat) (text_ term : str) : option (list (Z * Z)) :=
  let text_u := upper text_ in
  let rev := List.rev (upper term) in
  scan_loop fuel text_u rev (scan_start text_u rev).

(** Enough fuel for every run that exits (see [scan_loop_enough]); [None]
    stands for a loop that does not exit. *)
Definition scan_fuel (text_ : str) : nat := S (S (length (upper text_))).

Definition find_direct (text_ term : str) : option (list (Z * Z)) :=
  find_direct_fuel (scan_fuel text_) text_ term.

Definition find_reversed (text_ term : str) : option (list (Z * Z)) :=
  find_reversed_fuel (scan_fuel text_) text_ term.

(** *** find_els *)

(** The body of [for start in range(n)], with its [break]. *)
Fixpoint els_starts (cleaned_ cu tu : str) (length_ n skip_ : Z)
    (starts : list Z) (results : list els_result) : list els_result :=
  match starts with
  | [] => results
  | start :: rest =>
      let end_ := start + (length_ - 1) * skip_ in
      if end_ >=? n then results
      else
        let seq_ := map (fun i => char_at cu (start + i * skip_)) (py_range 0 length_) in
        if str_eqb seq_ tu then
          let positions_ := map (fun i => start + i * skip_) (py_range 0 length_) in
          els_starts cleaned_ cu tu length_ n skip_ rest
            (results ++ [{| skip := skip_; positions := positions_; cleaned := cleaned_ |}])
        else els_starts cleaned_ cu tu length_ n skip_ rest results
  end.

Definition find_els (text_ term : str) (max_skip : Z) : list els_result :=
  let letters := filter is_ascii_letter text_ in
  let cleaned_ := letters in
  let cu := upper cleaned_ in
  let tu := upper term in
  let length_ := len tu in
  let n := len cu in
  fold_left
    (fun results skip_ =>
       els_starts cleaned_ cu tu length_ n skip_ (py_range 0 n) results)
    (py_range 1 (max_skip + 1)) [].

(** The default of the keyword argument. *)
Definition default_max_skip : Z := 50.

End Matchers.

(** ** The highlighter *)

Definition escape_html (text_ : str) : str :=
  replace_char 62 (codes "&gt;")
    (replace_char 60 (codes "&lt;")
       (replace_char 38 (codes "&amp;") text_)).

(** [sorted(matches, key=lambda x: x[0])]: the stable sort by start. *)
Fixpoint insert_by_start (m : Z * Z) (l : list (Z * Z)) : list (Z * Z) :=
  match l with
  | [] => [m]
  | x :: l' => if fst m <=? fst x then m :: l else x :: insert_by_start m l'
  end.

Fixpoint sorted_by_start (l : list (Z * Z)) : list (Z * Z) :=
  match l with
  | [] => []
  | m :: l' => insert_by_start m (sorted_by_start l')
  end.

Definition span_open (css_class : str) : str :=
  codes "<span class=" ++ dq ++ css_class ++ dq ++ codes ">".

Definition span_close : str := codes "</span>".

(** One turn of the [for start, length in sorted(...)] loop on the state
    [(parts, last)]. *)
Definition highlight_step (text_ css_class : str) (st : list str * Z) (m : Z * Z)
  : list str * Z :=
  let '(parts, last) := st in
  let '(start, length_) := m in
  let parts := parts ++ [escape_html (py_slice text_ last start)] in
  let segment := escape_html (py_slice text_ start (start + length_)) in
  let parts := parts ++ [span_open css_class ++ segment ++ span_close] in
  (parts, start + length_).

Definition highlight_text (text_ : str) (matches_ : list (Z * Z)) (css_class : str) : str :=
  match matches_ with
  | [] => escape_html text_
  | _ =>
      let '(parts, last) :=
        fold_left (highlight_step text_ css_class) (sorted_by_start matches_) ([], 0) in
      let parts := parts ++ [escape_html (py_slice_from text_ last)] in
      join_empty parts
  end.

(** ** The verse parser

    The compiled pattern of [load_bible] has four groups: an optional digit
    1 to 3, spaces and a word; after spaces, a number; after a colon, a
    number; after spaces, the rest of the line up to a newline.  It is
    embedded as the backtracking matcher that [re] runs: every quantifier is
    greedy, and gives characters back, longest first, when what follows does
    not match.  A
    matcher takes the rest of the line and the position reached, and answers
    the positions where the groups open and close. *)

Definition matcher := str -> Z -> option (list Z).

(** End of the pattern. *)
Definition re_end : matcher := fun _ _ => Some [].

(** A parenthesis: the position is recorded. *)
Definition re_mark (k : matcher) : matcher :=
  fun s pos => option_map (cons pos) (k s pos).

(** One character of a class. *)
Definition re_one (p : Z -> bool) (k : matcher) : matcher :=
  fun s pos =>
    match s with
    | c :: s' => if p c then k s' (pos + 1) else None
    | [] => None
    end.

(** [p?] *)
Definition re_opt (p : Z -> bool) (k : matcher) : matcher :=
  fun s pos =>
    match s with
    | c :: s' =>
        if p c then
          match k s' (pos + 1) with
          | Some r => Some r
          | None => k s pos
          end
        else k s pos
    | [] => k s pos
    end.

(** [p*] *)
Fixpoint re_star (p : Z -> bool) (k : matcher) (s : str) (pos : Z) : option (list Z) :=
  match s with
  | c :: s' =>
      if p c then
        match re_star p k s' (pos + 1) with
        | Some r => Some r
        | None => k s pos
        end
      else k s pos
  | [] => k s pos
  end.

(** [p+] *)
Definition re_plus (p : Z -> bool) (k : matcher) : matcher :=
  re_one p (re_star p k).

(** [[1-3]], [:], and [.] (no DOTALL: anything but a newline). *)
Definition is_1_to_3 (c : Z) : bool := (49 <=? c) && (c <=? 51).
Definition is_colon (c : Z) : bool := c =? 58.
Definition re_dot (c : Z) : bool := negb (c =? 10).

Section Parser.

Context {U : UnicodeData}.

Definition pattern : matcher :=
  re_mark (re_opt is_1_to_3 (re_star re_space (re_plus re_word
  (re_mark (re_plus re_space
  (re_mark (re_plus re_digit
  (re_mark (re_one is_colon
  (re_mark (re_plus re_digit
  (re_mark (re_plus re_space
  (re_mark (re_star re_dot
  (re_mark re_end)))))))))))))))).

(** [pattern.match(line)] *)
Definition pattern_match (line : str) : option (list Z) := pattern line 0.

(** [m.group(k)], for [k] from 1 to 4. *)
Definition group (line : str) (m : list Z) (k : nat) : str :=
  py_slice line (nth (2 * k - 2) m 0) (nth (2 * k - 1) m 0).

(** [load_bible], on the lines that iterating over the file yields. *)
Definition load_bible (lines : list str) : list Verse :=
  fold_left
    (fun verses line =>
       match pattern_match line with
       | Some m =>
           verses ++ [{| book := group line m 1;
                         chapter := group line m 2;
                         verse := group line m 3;
                         text := group line m 4 |}]
       | None => verses
       end)
    lines [].

End Parser.

(** ** The report assembler *)

Section Report.

Context {U : UnicodeData}.

(** [sum(len(find(v['text'], term)) for v in verses)] *)
Fixpoint sum_matches (find : str -> str -> option (list (Z * Z)))
    (verses : list Verse) (term : str) : option Z :=
  match verses with
  | [] => Some 0
  | v :: vs =>
      match find (text v) term with
      | None => None
      | Some m =>
          match sum_matches find vs term with
          | None => None
          | Some n => Some (len m + n)
          end
      end
  end.

Definition sum_els (verses : list Verse) (term : str) : Z :=
  fold_right (fun v n => len (find_els (text v) term default_max_skip) + n) 0 verses.

Definition title_line (term : str) : str :=
  codes "  <title>Yada Bible Word Search Report for " ++ dq ++ term ++ dq
    ++ codes "</title>".

Definition h1_line (term : str) : str :=
  codes "<h1>Search Term: " ++ term ++ codes "</h1>".

Definition nav_line (direct_count reverse_count els_count : Z) : str :=
  (codes "<a href=" ++ dq ++ codes "#conventional" ++ dq
     ++ codes ">Conventional Matches (" ++ str_of_int direct_count ++ codes ")</a> | ")
  ++ (codes "<a href=" ++ dq ++ codes "#reversed" ++ dq
     ++ codes ">Reversed Matches (" ++ str_of_int reverse_count ++ codes ")</a> | ")
  ++ (codes "<a href=" ++ dq ++ codes "#els" ++ dq
     ++ codes ">Equidistant Matches (" ++ str_of_int els_count ++ codes ")</a>").

(** The lines appended before the first section. *)
Definition head_lines (term : str) (direct_count reverse_count els_count : Z) : list str :=
  [ codes "<!DOCTYPE html>";
    codes "<html lang=" ++ dq ++ codes "en" ++ dq ++ codes ">";
    codes "<head>";
    codes "  <meta charset=" ++ dq ++ codes "UTF-8" ++ dq ++ codes ">";
    title_line term;
    codes "  <style>";
    codes "    body { font-family: sans-serif; white-space: pre-wrap; }";
    codes "    .highlight-direct { background: yellow; }";
    codes "    .highlight-reverse { background: cyan; }";
    codes "    .highlight-els { background: magenta; }";
    codes "    nav { margin-bottom: 1em; }";
    codes "    nav a { margin-right: 1em; text-decoration: none; }";
    codes "    h1, h2, h3 { margin-top: 1em; }";
    codes "  </style>";
    codes "</head>";
    codes "<body>";
    h1_line term;
    codes "<nav>";
    nav_line direct_count reverse_count els_count;
    codes "</nav>" ].

(** [f"{v['book']} {v['chapter']}:{v['verse']}"] *)
Definition loc_of (v : Verse) : str :=
  book v ++ codes " " ++ chapter v ++ codes ":" ++ verse v.

Definition h3_line (title : str) : str := codes "<h3>" ++ title ++ codes "</h3>".
Definition p_line (body : str) : str := codes "<p>" ++ body ++ codes "</p>".

(** The loop of the Conventional section ([find_direct], [highlight-direct])
    and of the Reversed section ([find_reversed], [highlight-reverse]). *)
Fixpoint matches_section (find : str -> str -> option (list (Z * Z))) (css_class : str)
    (verses : list Verse) (term : str) (html : list str) : option (list str) :=
  match verses with
  | [] => Some html
  | v :: vs =>
      match find (text v) term with
      | None => None
      | Some [] => matches_section find css_class vs term html
      | Some dm =>
          let loc := loc_of v in
          let html := html ++ [h3_line loc] in
          let html := html ++ [p_line (highlight_text (text v) dm css_class)] in
          matches_section find css_class vs term html
      end
  end.

(** The body of [for m in els]. *)
Definition els_block (loc_base : str) (html : list str) (m : els_result) : list str :=
  let skip_ := skip m in
  let pos := positions m in
  let cleaned_ := cleaned m in
  let highlights := map (fun p => (p, 1)) pos in
  let subtitle := loc_base ++ codes " (skip=" ++ str_of_int skip_ ++ codes ")" in
  let html := html ++ [h3_line subtitle] in
  html ++ [p_line (highlight_text cleaned_ highlights (codes "highlight-els"))].

Fixpoint els_section (verses : list Verse) (term : str) (html : list str) : list str :=
  match verses with
  | [] => html
  | v :: vs =>
      let els := find_els (text v) term default_max_skip in
      match els with
      | [] => els_section vs term html
      | _ =>
          let loc_base := loc_of v in
          els_section vs term (fold_left (els_block loc_base) els html)
      end
  end.

Definition h2_conventional : str :=
  codes "<h2 id=" ++ dq ++ codes "conventional" ++ dq ++ codes ">Conventional Matches</h2>".
Definition h2_reversed : str :=
  codes "<h2 id=" ++ dq ++ codes "reversed" ++ dq ++ codes ">Reversed Matches</h2>".
Definition h2_els : str :=
  codes "<h2 id=" ++ dq ++ codes "els" ++ dq
    ++ codes ">Equidistant Letter Sequences (ELS)</h2>".

(** The list [html] at the [return] of [generate_html]; [None] when a scan
    loop of [find_direct] or [find_reversed] does not exit. *)
Definition generate_html_lines (verses : list Verse) (term : str) : option (list str) :=
  match sum_matches find_direct verses term with
  | None => None
  | Some direct_count =>
  match sum_matches find_reversed verses term with
  | None => None
  | Some reverse_count =>
      let els_count := sum_els verses term in
      let html := head_lines term direct_count reverse_count els_count in
      let html := html ++ [h2_conventional] in
      match matches_section find_direct (codes "highlight-direct") verses term html with
      | None => None
      | Some html =>
          let html := html ++ [h2_reversed] in
          match matches_section find_reversed (codes "highlight-reverse") verses term html with
          | None => None
          | Some html =>
              let html := html ++ [h2_els] in
              let html := els_section verses term html in
              let html := html ++ [codes "</body>"] in
              Some (html ++ [codes "</html>"])
          end
      end
  end end.

Definition generate_html (verses : list Verse) (term : str) : option str :=
  option_map (join [10]) (generate_html_lines verses term).

End Report.

(** ** A fragment of the Unicode database

    The Latin-1 supplement (U+0080 to U+00FF) and the ligature U+FB01, as the
    interpreter has them; a code point outside the fragment is taken as
    caseless and in no class.  The theorems below hold for every
    [UnicodeData]: the fragment serves to run the program on examples. *)

Definition latin1_upper (c : Z) : list Z :=
  if c =? 181 then [924]
  else if c =? 223 then [83; 83]
  else if c =? 247 then [247]
  else if (224 <=? c) && (c <=? 254) then [c - 32]
  else if c =? 255 then [376]
  else if c =? 64257 then [70; 73]
  else [c].

Definition latin1_isspace (c : Z) : bool := (c =? 133) || (c =? 160).

Definition latin1_isalnum (c : Z) : bool :=
  (c =? 170) || (c =? 178) || (c =? 179) || (c =? 181) || (c =? 185) || (c =? 186)
  || ((188 <=? c) && (c <=? 190))
  || ((192 <=? c) && (c <=? 214)) || ((216 <=? c) && (c <=? 246))
  || ((248 <=? c) && (c <=? 255)) || (c =? 64257).

#[export] Instance latin1_fragment : UnicodeData.
Proof.
  refine {| to_upper_full := latin1_upper;
            uni_isspace := latin1_isspace;
            uni_isalnum := latin1_isalnum;
            uni_isdecimal := fun _ => false;
            uni_digit_value := fun _ => 0;
            to_upper_full_nonempty := _;
            uni_digit_value_range := _ |}.
  - intro c. unfold latin1_upper.
    repeat match goal with |- context [if ?b then _ else _] => destruct b end;
      discriminate.
  - intros c H. discriminate H.
Defined.

(** ** Notions of the specification *)

(** Every character of [s] uppercases to exactly one character: this holds
    of every ASCII string. *)
Definition single_upper {U : UnicodeData} (s : str) : Prop :=
  Forall (fun c => length (upper_cp c) = 1%nat) s.

(** The first (and, on a [single_upper] string, only) character of the
    uppercase of [c]. *)
Definition up1 {U : UnicodeData} (c : Z) : Z := hd 0 (upper_cp c).

(** [sub] occurs in [s] at offset [p]. *)
Definition occurs_at (s sub : str) (p : Z) : Prop :=
  0 <= p <= len s /\ starts_with sub (skipn (Z.to_nat p) s) = true.

(** The leftmost-first scan without overlap: [ms] lists, from offset [from]
    on, each time the first occurrence at or after the end of the one
    before, and no occurrence is left after the last. *)
Fixpoint leftmost_scan (s sub : str) (from : Z) (ms : list (Z * Z)) : Prop :=
  match ms with
  | [] => forall p, from <= p -> ~ occurs_at s sub p
  | (start, l) :: ms' =>
      l = len sub /\ from <= start /\ occurs_at s sub start
      /\ (forall p, from <= p < start -> ~ occurs_at s sub p)
      /\ leftmost_scan s sub (start + l) ms'
  end.

(** Intervals sorted by start and without overlap: each one ends before
    every later one starts. *)
Definition ordered_disjoint (ms : list (Z * Z)) : Prop :=
  StronglySorted (fun a b => fst a + snd a <= fst b) ms.

(** A match interval of the data model, inside a reference string. *)
Definition in_bounds (ref : str) (m : Z * Z) : Prop :=
  0 <= fst m /\ 0 < snd m /\ fst m + snd m <= len ref.

(** Two intervals share no position. *)
Definition disjoint (a b : Z * Z) : Prop :=
  fst a + snd a <= fst b \/ fst b + snd b <= fst a.

(** No two entries of the list overlap. *)
Definition non_overlapping (ms : list (Z * Z)) : Prop :=
  ForallOrdPairs disjoint ms.

(** The interval [m] has width [width], lies inside [text_], and the slice
    of [text_] it cuts out, uppercased, is [needle_u]. *)
Definition spells {U : UnicodeData} (text_ needle_u : str) (width : Z) (m : Z * Z) : Prop :=
  snd m = width /\ 0 <= fst m /\ fst m + snd m <= len text_
  /\ upper (py_slice text_ (fst m) (fst m + snd m)) = needle_u.

(** The direct matcher as the specification words it: intervals sorted,
    without overlap, of the length of the term, spelling the term in the
    original text. *)
Definition direct_claim {U : UnicodeData} (text_ term : str) (ms : list (Z * Z)) : Prop :=
  ordered_disjoint ms /\ Forall (spells text_ (upper term) (len term)) ms.

(** The reversed matcher as the specification words it: the scan of the
    direct matcher for the term reversed, with intervals that spell the
    reversed term in the original text. *)
Definition reversed_claim {U : UnicodeData} (text_ term : str) (ms : list (Z * Z)) : Prop :=
  find_direct text_ (rev term) = Some ms
  /\ ordered_disjoint ms
  /\ Forall (spells text_ (upper (rev term)) (len term)) ms.

(** The ELS result of the hit at [(skip_, start)], for a term of [length_]
    characters. *)
Definition els_result_of (cleaned_ : str) (length_ skip_ start : Z) : els_result :=
  {| skip := skip_;
     positions := map (fun i => start + i * skip_) (py_range 0 length_);
     cleaned := cleaned_ |}.

(** A start that the inner loop reports at skip [skip_]: the last sampled
    index is inside the [n] letters, and the sampled letters are [tu]. *)
Definition reported (cu tu : str) (length_ n skip_ start : Z) : Prop :=
  start + (length_ - 1) * skip_ < n
  /\ map (fun i => char_at cu (start + i * skip_)) (py_range 0 length_) = tu.

(** The order of the double loop on hits [(skip, start)]: by skip, then by
    start. *)
Definition skip_then_start (a b : Z * Z) : Prop :=
  fst a < fst b \/ (fst a = fst b /\ snd a < snd b).

(** The same order read off two results; the start of a result is its
    first position, which a result for the empty term does not have. *)
Definition els_before (r1 r2 : els_result) : Prop :=
  skip r1 < skip r2
  \/ (skip r1 = skip r2
      /\ (positions r1 <> [] -> hd 0 (positions r1) < hd 0 (positions r2))).

(** What the specification says of one ELS result, for a term length [L]. *)
Definition els_claim {U : UnicodeData} (L : Z) (text_ term : str) (max_skip : Z)
    (r : els_result) : Prop :=
  1 <= skip r <= max_skip
  /\ len (positions r) = L
  /\ (exists start,
        0 <= start
        /\ positions r = map (fun i => start + i * skip r) (py_range 0 L)
        /\ start + (L - 1) * skip r < len (cleaned r))
  /\ Forall (fun p => 0 <= p < len (cleaned r)) (positions r)
  /\ cleaned r = filter is_ascii_letter text_
  /\ upper (map (char_at (cleaned r)) (positions r)) = upper term.

(** Un-escaping of the three entities, in one pass from the left: [skip_]
    counts the characters of an entity still to drop. *)
Fixpoint unescape_from (skip_ : nat) (s : str) : str :=
  match s with
  | [] => []
  | c :: s' =>
      match skip_ with
      | S k => unescape_from k s'
      | O =>
          if starts_with (codes "&amp;") s then 38 :: unescape_from 4 s'
          else if starts_with (codes "&lt;") s then 60 :: unescape_from 3 s'
          else if starts_with (codes "&gt;") s then 62 :: unescape_from 3 s'
          else c :: unescape_from 0 s'
      end
  end.

Definition unescape_html (s : str) : str := unescape_from 0 s.

(** Stripping the markers, in one pass from the left: an opening marker of
    the style class and a closing marker are dropped, every other character
    is kept. *)
Fixpoint strip_from (css_class : str) (skip_ : nat) (s : str) : str :=
  match s with
  | [] => []
  | c :: s' =>
      match skip_ with
      | S k => strip_from css_class k s'
      | O =>
          if starts_with (span_open css_class) s
          then strip_from css_class (length (span_open css_class) - 1) s'
          else if starts_with span_close s
          then strip_from css_class (length span_close - 1) s'
          else c :: strip_from css_class 0 s'
      end
  end.

Definition strip_markers (css_class s : str) : str := strip_from css_class 0 s.

(** The number of opening markers met by the same pass. *)
Fixpoint count_from (css_class : str) (skip_ : nat) (s : str) : Z :=
  match s with
  | [] => 0
  | c :: s' =>
      match skip_ with
      | S k => count_from css_class k s'
      | O =>
          if starts_with (span_open css_class) s
          then 1 + count_from css_class (length (span_open css_class) - 1) s'
          else if starts_with span_close s
          then count_from css_class (length span_close - 1) s'
          else count_from css_class 0 s'
      end
  end.

Definition count_spans (css_class s : str) : Z := count_from css_class 0 s.

(** The entity of one character. *)
Definition esc_char (c : Z) : str :=
  if c =? 38 then codes "&amp;"
  else if c =? 60 then codes "&lt;"
  else if c =? 62 then codes "&gt;"
  else [c].

(** The output of the highlighter for intervals already in order, from the
    offset [last] on: each gap escaped, each interval escaped and wrapped,
    and the escaped rest. *)
Fixpoint marked (text_ css_class : str) (last : Z) (ms : list (Z * Z)) : str :=
  match ms with
  | [] => escape_html (py_slice_from text_ last)
  | (start, l) :: ms' =>
      escape_html (py_slice text_ last start)
      ++ (span_open css_class ++ escape_html (py_slice text_ start (start + l)) ++ span_close)
      ++ marked text_ css_class (start + l) ms'
  end.

(** The characters of the reference string that such an output carries. *)
Fixpoint covered (text_ : str) (last : Z) (ms : list (Z * Z)) : str :=
  match ms with
  | [] => py_slice_from text_ last
  | (start, l) :: ms' =>
      py_slice text_ last start ++ py_slice text_ start (start + l)
      ++ covered text_ (start + l) ms'
  end.

(** A matcher accepts at a position when it answers a match. *)
Definition accepts (k : matcher) (s : str) (pos : Z) : Prop :=
  exists r, k s pos = Some r.

(** One line of the file, parsed: the verse that [load_bible] appends for
    it, if any. *)
Definition parse_line {U : UnicodeData} (line : str) : option Verse :=
  match pattern_match line with
  | Some m => Some {| book := group line m 1;
                      chapter := group line m 2;
                      verse := group line m 3;
                      text := group line m 4 |}
  | None => None
  end.

Definition verses_of_line {U : UnicodeData} (line : str) : list Verse :=
  match parse_line line with
  | Some v => [v]
  | None => []
  end.

(** The value of a decimal digit, and of a string of digits. *)
Definition digit_value {U : UnicodeData} (c : Z) : Z :=
  if is_ascii c then c - 48 else uni_digit_value c.

Definition int_of_digits {U : UnicodeData} (s : str) : Z :=
  fold_left (fun acc c => 10 * acc + digit_value c) s 0.

(** A string of one or more decimal digits. *)
Definition is_number {U : UnicodeData} (s : str) : Prop :=
  s <> [] /\ forallb re_digit s = true.

(** The verse [v] is the reading of [line] by the grammar: the book is the
    optional numeral, optional whitespace and the word; chapter and verse
    number are the two numbers around the colon; the text is the remainder,
    up to the end of the line. *)
Definition parsed_as {U : UnicodeData} (line : str) (v : Verse) : Prop :=
  exists num sp1 word sp2 sp3 tail,
    line = book v ++ sp2 ++ chapter v ++ [58] ++ verse v ++ sp3 ++ text v ++ tail
    /\ book v = num ++ sp1 ++ word
    /\ (num = [] \/ exists d, num = [d] /\ 49 <= d <= 51)
    /\ forallb re_space sp1 = true
    /\ word <> [] /\ forallb re_word word = true
    /\ sp2 <> [] /\ forallb re_space sp2 = true
    /\ is_number (chapter v) /\ is_number (verse v)
    /\ sp3 <> [] /\ forallb re_space sp3 = true
    /\ forallb re_dot (text v) = true
    /\ (tail = [] \/ exists t, tail = 10 :: t).

(** Chapter and verse number as the data model words them: positive. *)
Definition positive_numbers {U : UnicodeData} (v : Verse) : Prop :=
  1 <= int_of_digits (chapter v) /\ 1 <= int_of_digits (verse v).

(** A rendered block of a section: its heading and the body of its
    paragraph; the two lines it takes in the report. *)
Definition block_lines (blocks : list (str * str)) : list str :=
  flat_map (fun b => [h3_line (fst b); p_line (snd b)]) blocks.

(** The blocks of the Conventional and of the Reversed section: one for
    each verse with a match, under the verse's location, with the text
    highlighted at the matches. *)
Definition match_blocks (find : str -> str -> option (list (Z * Z))) (css_class : str)
    (verses : list Verse) (term : str) : list (str * str) :=
  flat_map
    (fun v => match find (text v) term with
              | Some (m :: ms) => [(loc_of v, highlight_text (text v) (m :: ms) css_class)]
              | _ => []
              end)
    verses.

(** The blocks of the Equidistant section: one for each ELS result. *)
Definition els_blocks {U : UnicodeData} (verses : list Verse) (term : str)
  : list (str * str) :=
  flat_map
    (fun v =>
       map (fun m =>
              (loc_of v ++ codes " (skip=" ++ str_of_int (skip m) ++ codes ")",
               highlight_text (cleaned m) (map (fun p => (p, 1)) (positions m))
                 (codes "highlight-els")))
           (find_els (text v) term default_max_skip))
    verses.

(** The number of matches rendered in a section: the opening markers of the
    style class in the paragraphs of its blocks. *)
Definition spans_in (css_class : str) (blocks : list (str * str)) : Z :=
  fold_right (fun b n => count_spans css_class (snd b) + n) 0 blocks.

(** A string of code points below 256 as a library string, and the integer
    that a decimal numeral denotes ([int(s)]). *)
Fixpoint string_of_codes (s : str) : string :=
  match s with
  | [] => EmptyString
  | c :: s' => String (ascii_of_N (Z.to_N c)) (string_of_codes s')
  end.

Definition int_of_str (s : str) : option Z :=
  option_map Z.of_int (NilZero.int_of_string (string_of_codes s)).

(** The two lines of the report that render a block: the h3 line of its
    heading and the p line of its body, character by character. *)
Definition rendered_block (b : str * str) : str * str :=
  (codes "<h3>" ++ fst b ++ codes "</h3>", codes "<p>" ++ snd b ++ codes "</p>").

(** The lines of a section, from its rendered blocks. *)
Definition section_lines (rendered : list (str * str)) : list str :=
  flat_map (fun b => [fst b; snd b]) rendered.


(** * Properties *)

(** ** Strings and [str.find] *)

Lemma len_nonneg {A} (l : list A) : 0 <= len l.
Proof. unfold len. lia. Qed.

Lemma len_app {A} (a b : list A) : len (a ++ b) = len a + len b.
Proof. unfold len. rewrite length_app. lia. Qed.

Lemma len_nil_iff {A} (l : list A) : len l = 0 <-> l = [].
Proof.
  unfold len. destruct l; simpl; split; intro H; try reflexivity; try discriminate; lia.
Qed.

Lemma len_pos {A} (l : list A) : l <> [] -> 0 < len l.
Proof. destruct l; [congruence | unfold len; simpl; lia]. Qed.

Lemma starts_with_app (sub t : str) : starts_with sub (sub ++ t) = true.
Proof.
  induction sub as [|a sub IH]; simpl; [reflexivity|].
  rewrite Z.eqb_refl. exact IH.
Qed.

Lemma starts_with_split (sub s : str) :
  starts_with sub s = true -> exists t, s = sub ++ t.
Proof.
  revert s. induction sub as [|a sub IH]; intros s H.
  - exists s. reflexivity.
  - destruct s as [|b s]; simpl in H; [discriminate|].
    apply andb_prop in H. destruct H as [Hab H].
    apply Z.eqb_eq in Hab. subst b.
    destruct (IH _ H) as [t ->]. exists t. reflexivity.
Qed.

Lemma starts_with_firstn (sub s : str) :
  starts_with sub s = true -> firstn (length sub) s = sub.
Proof.
  intro H. destruct (starts_with_split _ _ H) as [t ->].
  rewrite firstn_app, Nat.sub_diag, firstn_all. simpl. apply app_nil_r.
Qed.

Lemma starts_with_nil (s : str) : starts_with [] s = true.
Proof. destruct s; reflexivity. Qed.

Lemma occurs_at_fits s sub p : occurs_at s sub p -> p + len sub <= len s.
Proof.
  intros [Hp H]. apply starts_with_split in H. destruct H as [t Ht].
  assert (L : length (skipn (Z.to_nat p) s) = (length sub + length t)%nat)
    by (rewrite Ht; apply length_app).
  rewrite length_skipn in L. unfold len in *. lia.
Qed.

Lemma occurs_at_slice s sub p :
  occurs_at s sub p -> py_slice s p (p + len sub) = sub.
Proof.
  intros H. pose proof (occurs_at_fits _ _ _ H) as F. destruct H as [Hp H].
  pose proof (len_nonneg sub) as N.
  unfold py_slice, adjust_index.
  destruct (Z.ltb_spec p 0); [lia|].
  destruct (Z.ltb_spec (p + len sub) 0); [lia|].
  rewrite !Z.min_l by lia.
  replace (Z.to_nat (p + len sub - p)) with (length sub) by (unfold len; lia).
  apply starts_with_firstn. exact H.
Qed.

Lemma Forall_skipn_keeps {A} (P : A -> Prop) (n : nat) (l : list A) :
  Forall P l -> Forall P (skipn n l).
Proof.
  intro H. rewrite <- (firstn_skipn n l) in H.
  apply Forall_app in H. apply H.
Qed.

Lemma Forall_firstn_keeps {A} (P : A -> Prop) (n : nat) (l : list A) :
  Forall P l -> Forall P (firstn n l).
Proof.
  intro H. rewrite <- (firstn_skipn n l) in H.
  apply Forall_app in H. apply H.
Qed.

(** What [find_from] answers, when the suffix [s] starts at offset [i] of
    the subject [skipn] was taken from. *)
Lemma find_from_spec (sub : str) : forall (s : str) (i : Z),
  0 <= i ->
  let r := find_from sub s i in
  (r = -1 /\ forall k, (k <= length s)%nat -> starts_with sub (skipn k s) = false)
  \/ (i <= r <= i + len s
      /\ starts_with sub (skipn (Z.to_nat (r - i)) s) = true
      /\ forall k, (k < Z.to_nat (r - i))%nat -> starts_with sub (skipn k s) = false).
Proof.
  induction s as [|c s IH]; intros i Hi; simpl.
  - destruct (starts_with sub []) eqn:E.
    + right. replace (Z.to_nat (i - i)) with 0%nat by lia. simpl.
      split; [unfold len; simpl; lia|]. split; [exact E | intros; lia].
    + left. split; [reflexivity|]. intros k Hk.
      simpl in Hk. replace k with 0%nat by lia. exact E.
  - destruct (starts_with sub (c :: s)) eqn:E.
    + right. replace (Z.to_nat (i - i)) with 0%nat by lia. simpl.
      split; [unfold len; simpl; lia|]. split; [exact E | intros; lia].
    + specialize (IH (i + 1) ltac:(lia)). simpl in IH.
      destruct IH as [[R N] | [R [F N]]].
      * left. split; [exact R|]. intros [|k] Hk; [exact E|].
        simpl. apply N. simpl in Hk. lia.
      * right. unfold len in *. simpl length.
        set (r := find_from sub s (i + 1)) in *.
        replace (Z.to_nat (r - i)) with (S (Z.to_nat (r - (i + 1)))) by lia.
        split; [lia|]. split; [exact F|].
        intros [|k] Hk; [exact E|]. simpl. apply N. lia.
Qed.

Lemma skipn_skipn_add {A} (a b : nat) (l : list A) :
  skipn a (skipn b l) = skipn (a + b) l.
Proof.
  revert l. induction b as [|b IH]; intro l.
  - rewrite Nat.add_0_r. reflexivity.
  - rewrite Nat.add_succ_r. destruct l; simpl.
    + apply skipn_nil.
    + apply IH.
Qed.

(** [s.find(sub, start)] answers the first occurrence from [start] on. *)
Lemma py_find_spec (s sub : str) (start : Z) :
  0 <= start ->
  let r := py_find s sub start in
  (r = -1 /\ forall p, start <= p -> ~ occurs_at s sub p)
  \/ (start <= r /\ occurs_at s sub r
      /\ forall p, start <= p < r -> ~ occurs_at s sub p).
Proof.
  intros Hs. unfold py_find.
  destruct (Z.ltb_spec start 0) as [|_]; [lia|].
  destruct (Z.ltb_spec (len s) start) as [Hl|Hl].
  - left. split; [reflexivity|]. intros p Hp [[_ Hb] _]. lia.
  - pose proof (find_from_spec sub (skipn (Z.to_nat start) s) start Hs) as F.
    simpl in F.
    set (r := find_from sub (skipn (Z.to_nat start) s) start) in *.
    assert (Ls : len (skipn (Z.to_nat start) s) = len s - start)
      by (unfold len in *; rewrite length_skipn; lia).
    destruct F as [[R N] | [R [F N]]].
    + left. split; [exact R|]. intros p Hp [[_ Hb] O].
      specialize (N (Z.to_nat (p - start))).
      rewrite skipn_skipn_add in N.
      replace (Z.to_nat (p - start) + Z.to_nat start)%nat with (Z.to_nat p) in N by lia.
      rewrite N in O; [discriminate|]. unfold len in *. lia.
    + right. rewrite Ls in R. split; [lia|]. split.
      * split; [lia|]. rewrite skipn_skipn_add in F.
        replace (Z.to_nat (r - start) + Z.to_nat start)%nat with (Z.to_nat r) in F by lia.
        exact F.
      * intros p Hp [_ O]. specialize (N (Z.to_nat (p - start)) ltac:(lia)).
        rewrite skipn_skipn_add in N.
        replace (Z.to_nat (p - start) + Z.to_nat start)%nat with (Z.to_nat p) in N by lia.
        rewrite N in O. discriminate.
Qed.

(** The empty string is found where the search starts. *)
Lemma py_find_empty (s : str) (start : Z) :
  0 <= start <= len s -> py_find s [] start = start.
Proof.
  intros H. unfold py_find.
  destruct (Z.ltb_spec start 0); [lia|].
  destruct (Z.ltb_spec (len s) start); [lia|].
  destruct (skipn (Z.to_nat start) s); reflexivity.
Qed.

(** ** The scan loop of [find_direct] and [find_reversed] *)

Section ScanLoop.

Context {U : UnicodeData}.

Lemma upper_cp_nonempty (c : Z) : upper_cp c <> [].
Proof.
  unfold upper_cp. destruct (is_ascii c); [discriminate|].
  apply to_upper_full_nonempty.
Qed.

Lemma upper_app (a b : str) : upper (a ++ b) = upper a ++ upper b.
Proof. apply flat_map_app. Qed.

Lemma upper_nonempty (s : str) : s <> [] -> upper s <> [].
Proof.
  destruct s as [|c s]; [congruence|]. intros _. simpl.
  pose proof (upper_cp_nonempty c). destruct (upper_cp c); [congruence | discriminate].
Qed.

Lemma rev_nonempty {A} (l : list A) : l <> [] -> rev l <> [].
Proof.
  intros H E. apply H. rewrite <- (rev_involutive l), E. reflexivity.
Qed.


Lemma upper_single (s : str) : single_upper s -> upper s = map up1 s.
Proof.
  induction 1 as [|c s Hc _ IH]; [reflexivity|].
  simpl. rewrite IH. unfold up1.
  destruct (upper_cp c) as [|x [|y l]]; simpl in Hc; try discriminate. reflexivity.
Qed.

Lemma single_upper_ascii (s : str) :
  Forall (fun c => is_ascii c = true) s -> single_upper s.
Proof.
  unfold single_upper. apply Forall_impl. intros c H.
  unfold upper_cp. rewrite H. reflexivity.
Qed.

Lemma single_upper_slice (s : str) (i j : Z) :
  single_upper s -> single_upper (py_slice s i j).
Proof.
  intro H. unfold py_slice, single_upper in *.
  apply Forall_firstn_keeps, Forall_skipn_keeps. exact H.
Qed.

Lemma single_upper_rev (s : str) : single_upper s -> single_upper (rev s).
Proof. unfold single_upper. apply Forall_rev. Qed.

Lemma len_map {A B} (f : A -> B) (l : list A) : len (map f l) = len l.
Proof. unfold len. rewrite length_map. reflexivity. Qed.

Lemma py_slice_map (f : Z -> Z) (s : str) (i j : Z) :
  py_slice (map f s) i j = map f (py_slice s i j).
Proof.
  unfold py_slice. rewrite len_map, skipn_map, firstn_map. reflexivity.
Qed.

Lemma upper_slice (s : str) (i j : Z) :
  single_upper s -> upper (py_slice s i j) = py_slice (upper s) i j.
Proof.
  intro H. rewrite (upper_single _ (single_upper_slice s i j H)).
  rewrite (upper_single _ H). symmetry. apply py_slice_map.
Qed.

Lemma upper_len_single (s : str) : single_upper s -> len (upper s) = len s.
Proof. intro H. rewrite (upper_single _ H). apply len_map. Qed.

Lemma upper_rev_single (s : str) : single_upper s -> upper (rev s) = rev (upper s).
Proof.
  intro H. rewrite (upper_single _ H), (upper_single _ (single_upper_rev _ H)).
  apply map_rev.
Qed.

(** A run of the loop that exits has listed the leftmost-first scan. *)
Lemma scan_loop_sound (text_u needle : str) : forall fuel from acc ms,
  0 <= from ->
  scan_loop fuel text_u needle
    {| idx := py_find text_u needle from; matches := acc |} = Some ms ->
  exists rest, ms = acc ++ rest /\ leftmost_scan text_u needle from rest.
Proof.
  induction fuel as [|fuel IH]; intros from acc ms Hf H; [discriminate|].
  simpl in H. unfold loop_step in H. simpl in H.
  pose proof (py_find_spec text_u needle from Hf) as S. simpl in S.
  destruct (Z.eqb_spec (py_find text_u needle from) (-1)) as [E|E].
  - injection H as <-. exists []. split; [symmetry; apply app_nil_r|].
    destruct S as [[_ N] | [R _]]; [exact N | lia].
  - destruct S as [[R _] | [R [O N]]]; [congruence|].
    apply IH in H; [|pose proof (len_nonneg needle); lia].
    destruct H as [rest [-> L]].
    exists ((py_find text_u needle from, len needle) :: rest).
    split; [rewrite <- app_assoc; reflexivity|].
    simpl. auto.
Qed.

(** More fuel does not change the answer of a run that exits. *)
Lemma scan_loop_mono (text_u needle : str) : forall fuel fuel' st ms,
  scan_loop fuel text_u needle st = Some ms -> (fuel <= fuel')%nat ->
  scan_loop fuel' text_u needle st = Some ms.
Proof.
  induction fuel as [|fuel IH]; intros fuel' st ms H Hle; [discriminate|].
  destruct fuel' as [|fuel']; [lia|].
  simpl in *. destruct (loop_step text_u needle st); [|exact H].
  apply IH with (1 := H). lia.
Qed.

(** With a needle that is not empty, the loop exits within
    [len(text_u) - from + 2] turns. *)
Lemma scan_loop_enough (text_u needle : str) : needle <> [] ->
  forall fuel from acc,
  0 <= from -> (Z.to_nat (len text_u - from) + 2 <= fuel)%nat ->
  exists ms,
    scan_loop fuel text_u needle
      {| idx := py_find text_u needle from; matches := acc |} = Some ms.
Proof.
  intros Hn. pose proof (len_pos _ Hn) as Lp.
  induction fuel as [|fuel IH]; intros from acc Hf Hfuel; [lia|].
  simpl. unfold loop_step. simpl.
  pose proof (py_find_spec text_u needle from Hf) as S. simpl in S.
  destruct (Z.eqb_spec (py_find text_u needle from) (-1)) as [E|E].
  - eexists. reflexivity.
  - destruct S as [[R _] | [R [O _]]]; [congruence|].
    pose proof (occurs_at_fits _ _ _ O) as F.
    apply IH; lia.
Qed.

(** With the empty needle the resume position stays where it is and the
    loop has no last turn. *)
Lemma scan_loop_empty_needle (text_u : str) : forall fuel from acc,
  0 <= from <= len text_u ->
  scan_loop fuel text_u [] {| idx := from; matches := acc |} = None.
Proof.
  induction fuel as [|fuel IH]; intros from acc Hf; [reflexivity|].
  simpl. unfold loop_step. simpl.
  destruct (Z.eqb_spec from (-1)); [lia|].
  change (len (@nil Z)) with 0. rewrite Z.add_0_r.
  rewrite py_find_empty by lia. apply IH. exact Hf.
Qed.

Lemma leftmost_scan_Forall (s sub : str) : forall ms from,
  leftmost_scan s sub from ms ->
  Forall (fun m => from <= fst m /\ snd m = len sub /\ occurs_at s sub (fst m)) ms.
Proof.
  induction ms as [|[st l] ms IH]; intros from H; [constructor|].
  simpl in H. destruct H as [Hl [Hs [Ho [_ H]]]].
  constructor; [simpl; auto|].
  apply IH in H. eapply Forall_impl; [|exact H].
  intros m [A B]. split; [|exact B].
  pose proof (len_nonneg sub). lia.
Qed.

Lemma leftmost_scan_ordered (s sub : str) : forall ms from,
  leftmost_scan s sub from ms -> ordered_disjoint ms.
Proof.
  induction ms as [|[st l] ms IH]; intros from H; [constructor|].
  simpl in H. destruct H as [Hl [Hs [Ho [_ H]]]].
  constructor; [eapply IH; exact H|].
  apply leftmost_scan_Forall in H. eapply Forall_impl; [|exact H].
  intros m [A _]. exact A.
Qed.

(** The leftmost-first scan determines the list. *)
Lemma leftmost_scan_unique (s sub : str) : forall ms ms' from,
  leftmost_scan s sub from ms -> leftmost_scan s sub from ms' -> ms = ms'.
Proof.
  induction ms as [|[st l] ms IH]; intros [|[st' l'] ms'] from H H'; simpl in *.
  - reflexivity.
  - destruct H' as [_ [Hs [Ho _]]]. exfalso. eapply H; eauto.
  - destruct H as [_ [Hs [Ho _]]]. exfalso. eapply H'; eauto.
  - destruct H as [Hl [Hs [Ho [Hn H]]]], H' as [Hl' [Hs' [Ho' [Hn' H']]]].
    assert (st = st').
    { destruct (Z.lt_trichotomy st st') as [L|[E|L]]; [|exact E|].
      - exfalso. apply (Hn' st); [lia | exact Ho].
      - exfalso. apply (Hn st'); [lia | exact Ho']. }
    subst st' l l'. f_equal. eapply IH; eauto.
Qed.

End ScanLoop.

(** ** The direct and the reversed matcher *)

Section DirectReversed.

Context {U : UnicodeData}.

(** A run from the start of the text: its answer is the leftmost-first scan,
    and the fuel of [scan_fuel] finds it. *)
Lemma scan_from_start (text_u needle : str) (fuel : nat) (ms : list (Z * Z)) :
  scan_loop fuel text_u needle (scan_start text_u needle) = Some ms ->
  leftmost_scan text_u needle 0 ms
  /\ scan_loop (S (S (length text_u))) text_u needle (scan_start text_u needle) = Some ms.
Proof.
  intro H. unfold scan_start in *.
  destruct (scan_loop_sound _ _ _ _ _ _ (Z.le_refl 0) H) as [rest [E L]].
  simpl in E. subst rest. split; [exact L|].
  destruct needle as [|c needle].
  - rewrite py_find_empty in H by (pose proof (len_nonneg text_u); lia).
    rewrite scan_loop_empty_needle in H by (pose proof (len_nonneg text_u); lia).
    discriminate.
  - destruct (scan_loop_enough text_u (c :: needle) ltac:(discriminate)
                (S (S (length text_u))) 0 [] (Z.le_refl 0)) as [ms' H'].
    { unfold len. lia. }
    rewrite H'. f_equal.
    destruct (Nat.le_ge_cases fuel (S (S (length text_u)))) as [Le|Le].
    + rewrite (scan_loop_mono _ _ _ _ _ _ H Le) in H'. congruence.
    + rewrite (scan_loop_mono _ _ _ _ _ _ H' Le) in H. congruence.
Qed.

Lemma scan_from_start_total (text_u needle : str) :
  needle <> [] ->
  exists ms, scan_loop (S (S (length text_u))) text_u needle (scan_start text_u needle) = Some ms.
Proof.
  intro Hn. apply scan_loop_enough; [exact Hn | lia | unfold len; lia].
Qed.

Lemma scan_from_start_empty (text_u : str) (fuel : nat) :
  scan_loop fuel text_u [] (scan_start text_u []) = None.
Proof.
  unfold scan_start. pose proof (len_nonneg text_u).
  rewrite py_find_empty by lia. apply scan_loop_empty_needle. lia.
Qed.

(** An occurrence in the uppercased text is an interval of the text itself
    when uppercasing keeps every character of the text in its place. *)
Lemma leftmost_scan_spells (text_ needle : str) (ms : list (Z * Z)) :
  single_upper text_ ->
  leftmost_scan (upper text_) needle 0 ms ->
  Forall (spells text_ needle (len needle)) ms.
Proof.
  intros Hs L. apply leftmost_scan_Forall in L.
  eapply Forall_impl; [|exact L].
  intros [st l] [A [B O]]. simpl in *. subst l.
  pose proof (occurs_at_fits _ _ _ O) as F.
  rewrite upper_len_single in F by exact Hs.
  unfold spells. simpl. repeat split; try lia.
  rewrite upper_slice by exact Hs. apply occurs_at_slice. exact O.
Qed.

Lemma find_direct_fuel_sound (text_ term : str) (fuel : nat) (ms : list (Z * Z)) :
  find_direct_fuel fuel text_ term = Some ms ->
  leftmost_scan (upper text_) (upper term) 0 ms /\ find_direct text_ term = Some ms.
Proof. intro H. apply scan_from_start in H. exact H. Qed.

Lemma find_reversed_fuel_sound (text_ term : str) (fuel : nat) (ms : list (Z * Z)) :
  find_reversed_fuel fuel text_ term = Some ms ->
  leftmost_scan (upper text_) (rev (upper term)) 0 ms /\ find_reversed text_ term = Some ms.
Proof. intro H. apply scan_from_start in H. exact H. Qed.

Lemma find_direct_total (text_ term : str) :
  term <> [] -> exists ms, find_direct text_ term = Some ms.
Proof.
  intro H. apply scan_from_start_total, upper_nonempty, H.
Qed.

Lemma find_reversed_total (text_ term : str) :
  term <> [] -> exists ms, find_reversed text_ term = Some ms.
Proof.
  intro H. apply scan_from_start_total, rev_nonempty, upper_nonempty, H.
Qed.

End DirectReversed.

(** C9.  The scan loops of [find_direct] and [find_reversed] exit for every
    text when the term is not empty: a turn resumes the search at
    [idx + len(needle)], and the position it finds is further right or is
    [-1].  With the empty term the resume position does not move and the
    loops do not exit, whatever the number of turns. *)
Theorem scan_loops_exit_iff_term_nonempty : forall (U : UnicodeData) (text_ : str),
  (forall c term, exists ms ms',
      find_direct text_ (c :: term) = Some ms
      /\ find_reversed text_ (c :: term) = Some ms')
  /\ (forall c needle st, 0 <= idx st ->
        exists st', loop_step (upper text_) (c :: needle) st = Some st'
          /\ idx st' = py_find (upper text_) (c :: needle) (idx st + len (c :: needle))
          /\ (idx st' = -1 \/ idx st < idx st'))
  /\ (forall st, 0 <= idx st <= len (upper text_) ->
        exists st', loop_step (upper text_) [] st = Some st' /\ idx st' = idx st)
  /\ (forall fuel,
        find_direct_fuel fuel text_ [] = None
        /\ find_reversed_fuel fuel text_ [] = None).
Proof.
  intros U text_. split; [|split; [|split]].
  - intros c term.
    destruct (find_direct_total text_ (c :: term)) as [ms H]; [discriminate|].
    destruct (find_reversed_total text_ (c :: term)) as [ms' H']; [discriminate|].
    exists ms, ms'. auto.
  - intros c needle st Hi. unfold loop_step.
    destruct (Z.eqb_spec (idx st) (-1)); [lia|].
    eexists. split; [reflexivity|]. simpl idx. split; [reflexivity|].
    pose proof (len_pos (c :: needle) ltac:(discriminate)) as Lp.
    pose proof (py_find_spec (upper text_) (c :: needle)
                  (idx st + len (c :: needle)) ltac:(lia)) as S.
    simpl in S. destruct S as [[R _] | [R _]]; [left; exact R | right; lia].
  - intros st Hi. unfold loop_step.
    destruct (Z.eqb_spec (idx st) (-1)); [lia|].
    eexists. split; [reflexivity|]. simpl idx.
    change (len (@nil Z)) with 0. rewrite Z.add_0_r.
    apply py_find_empty. exact Hi.
  - intro fuel. split.
    + apply scan_from_start_empty.
    + apply scan_from_start_empty.
Qed.

(** C2, amended.  For every text in which each character uppercases to
    one character, and every term: a list returned by the direct matcher is
    the leftmost-first scan without overlap for the uppercased term in the
    uppercased text; its intervals are sorted by start, do not overlap, have
    the length of the uppercased term, lie inside the original text, and cut
    out of the original text a slice that, uppercased, is the uppercased
    term; when each character of the term uppercases to one character too,
    that length is the length of the term, as the specification has it.  The
    matcher returns such a list whenever the term is not empty. *)
Theorem find_direct_leftmost_nonoverlapping :
  forall (U : UnicodeData) (text_ term : str),
  single_upper text_ ->
  (forall fuel ms, find_direct_fuel fuel text_ term = Some ms ->
     leftmost_scan (upper text_) (upper term) 0 ms
     /\ ordered_disjoint ms
     /\ Forall (spells text_ (upper term) (len (upper term))) ms
     /\ (single_upper term -> direct_claim text_ term ms))
  /\ (term <> [] -> exists ms, find_direct text_ term = Some ms).
Proof.
  intros U text_ term Hs. split.
  - intros fuel ms H. apply find_direct_fuel_sound in H. destruct H as [L _].
    pose proof (leftmost_scan_ordered _ _ _ _ L) as O.
    pose proof (leftmost_scan_spells _ _ _ Hs L) as P.
    split; [exact L|]. split; [exact O|]. split; [exact P|].
    intro Ht. split; [exact O|].
    rewrite <- (upper_len_single _ Ht). exact P.
  - apply find_direct_total.
Qed.

(** C3, amended.  The reversed matcher runs the scan of the direct matcher
    with the uppercased term reversed as its needle.  For every text in which
    each character uppercases to one character, a list it returns is the
    leftmost-first scan without overlap for that needle, and its intervals
    point into the forward text, where the slice, uppercased, is the needle
    read from left to right.  When each character of the term uppercases to
    one character too, the needle is the reversed term uppercased and the
    reversed matcher is the direct matcher on the reversed term. *)
Theorem find_reversed_mirror_scan :
  forall (U : UnicodeData) (text_ term : str),
  single_upper text_ ->
  (forall fuel ms, find_reversed_fuel fuel text_ term = Some ms ->
     leftmost_scan (upper text_) (rev (upper term)) 0 ms
     /\ ordered_disjoint ms
     /\ Forall (spells text_ (rev (upper term)) (len (upper term))) ms
     /\ (single_upper term -> reversed_claim text_ term ms))
  /\ (term <> [] -> exists ms, find_reversed text_ term = Some ms)
  /\ (single_upper term ->
        rev (upper term) = upper (rev term)
        /\ find_reversed text_ term = find_direct text_ (rev term)).
Proof.
  intros U text_ term Hs.
  assert (R : single_upper term ->
              rev (upper term) = upper (rev term)
              /\ find_reversed text_ term = find_direct text_ (rev term)).
  { intro Ht. pose proof (upper_rev_single _ Ht) as E. split; [symmetry; exact E|].
    unfold find_reversed, find_direct, find_reversed_fuel, find_direct_fuel.
    rewrite E. reflexivity. }
  split; [|split].
  - intros fuel ms H. apply find_reversed_fuel_sound in H. destruct H as [L F].
    pose proof (leftmost_scan_ordered _ _ _ _ L) as O.
    assert (P : Forall (spells text_ (rev (upper term)) (len (upper term))) ms).
    { replace (len (upper term)) with (len (rev (upper term)))
        by (unfold len; rewrite length_rev; reflexivity).
      apply leftmost_scan_spells; assumption. }
    split; [exact L|]. split; [exact O|]. split; [exact P|].
    intro Ht. destruct (R Ht) as [E D].
    split; [rewrite <- D; exact F|]. split; [exact O|].
    rewrite <- E, <- (upper_len_single _ Ht). exact P.
  - apply find_reversed_total.
  - exact R.
Qed.

Lemma find_direct_leftmost_nonoverlapping_witness :
  single_upper (U := latin1_fragment) (codes "In the beginning God")
  /\ ((forall fuel ms,
         find_direct_fuel (U := latin1_fragment) fuel
           (codes "In the beginning God") (codes "GOD") = Some ms ->
         leftmost_scan (upper (codes "In the beginning God")) (upper (codes "GOD")) 0 ms
         /\ ordered_disjoint ms
         /\ Forall (spells (codes "In the beginning God") (upper (codes "GOD"))
                      (len (upper (codes "GOD")))) ms
         /\ (single_upper (codes "GOD") ->
             direct_claim (codes "In the beginning God") (codes "GOD") ms))
      /\ (codes "GOD" <> [] ->
          exists ms, find_direct (codes "In the beginning God") (codes "GOD") = Some ms)).
Proof.
  assert (H : single_upper (U := latin1_fragment) (codes "In the beginning God"))
    by (repeat constructor).
  split; [exact H|].
  exact (find_direct_leftmost_nonoverlapping latin1_fragment
           (codes "In the beginning God") (codes "GOD") H).
Defined.

(** C2 as stated fails: the term U+00DF uppercases to two characters, and
    the interval found in the text SS has length 2, not the length 1 of the
    term. *)
Lemma find_direct_claim_counterexample :
  exists ms,
    find_direct (U := latin1_fragment) (codes "SS") [223] = Some ms
    /\ ~ direct_claim (codes "SS") [223] ms.
Proof.
  exists [(0, 2)]. split; [reflexivity|].
  intros [_ F]. inversion F as [|m l [W _] _]; subst.
  vm_compute in W. discriminate.
Qed.

(** Where uppercasing lengthens the text, the offsets are offsets of the
    uppercased text: in the two-character text U+00DF a, the term a is
    reported at offset 2, past the end of the text. *)
Example find_direct_offsets_shift :
  find_direct (U := latin1_fragment) [223; 97] (codes "a") = Some [(2, 1)]
  /\ len [223; 97] = 2
  /\ py_slice [223; 97] 2 (2 + 1) = []
  /\ ~ direct_claim [223; 97] (codes "a") [(2, 1)].
Proof.
  repeat split; try reflexivity.
  intros [_ F]. inversion F as [|m l [_ [_ [B _]]] _]; subst.
  vm_compute in B. apply B. reflexivity.
Qed.

Lemma find_reversed_mirror_scan_witness :
  single_upper (U := latin1_fragment) (codes "a dog")
  /\ ((forall fuel ms,
         find_reversed_fuel (U := latin1_fragment) fuel (codes "a dog") (codes "God") = Some ms ->
         leftmost_scan (upper (codes "a dog")) (rev (upper (codes "God"))) 0 ms
         /\ ordered_disjoint ms
         /\ Forall (spells (codes "a dog") (rev (upper (codes "God")))
                      (len (upper (codes "God")))) ms
         /\ (single_upper (codes "God") -> reversed_claim (codes "a dog") (codes "God") ms))
      /\ (codes "God" <> [] ->
          exists ms, find_reversed (codes "a dog") (codes "God") = Some ms)
      /\ (single_upper (codes "God") ->
          rev (upper (codes "God")) = upper (rev (codes "God"))
          /\ find_reversed (codes "a dog") (codes "God")
             = find_direct (codes "a dog") (rev (codes "God")))).
Proof.
  assert (H : single_upper (U := latin1_fragment) (codes "a dog"))
    by (repeat constructor).
  split; [exact H|].
  exact (find_reversed_mirror_scan latin1_fragment (codes "a dog") (codes "God") H).
Defined.

(** C3 as stated fails: the ligature U+FB01 uppercases to FI, the needle of
    the code is that uppercase reversed, IF, while the reversed term
    uppercased is FI.  In the text IF the code reports the interval (0, 2);
    the direct matcher on the reversed term reports nothing. *)
Lemma find_reversed_claim_counterexample :
  exists ms,
    find_reversed (U := latin1_fragment) (codes "IF") [64257] = Some ms
    /\ ~ reversed_claim (codes "IF") [64257] ms.
Proof.
  exists [(0, 2)]. split; [reflexivity|].
  intros [D _]. vm_compute in D. discriminate.
Qed.

(** ** The ELS matcher *)

Lemma in_py_range (a b x : Z) : In x (py_range a b) <-> a <= x < b.
Proof.
  unfold py_range. rewrite in_map_iff. split.
  - intros [k [<- H]]. apply in_seq in H. lia.
  - intro H. exists (Z.to_nat (x - a)). split; [lia|]. apply in_seq. lia.
Qed.

Lemma len_py_range (a b : Z) : a <= b -> len (py_range a b) = b - a.
Proof.
  intro H. unfold len, py_range. rewrite length_map, length_seq. lia.
Qed.

Lemma StronglySorted_app {A} (R : A -> A -> Prop) (a b : list A) :
  StronglySorted R a -> StronglySorted R b ->
  (forall x y, In x a -> In y b -> R x y) ->
  StronglySorted R (a ++ b).
Proof.
  induction a as [|x a IH]; intros Sa Sb H; simpl; [exact Sb|].
  inversion Sa as [|? ? Sa' Fa]; subst.
  constructor.
  - apply IH; [exact Sa' | exact Sb |]. intros; apply H; simpl; auto.
  - apply Forall_app. split; [exact Fa|].
    apply Forall_forall. intros y Hy. apply H; simpl; auto.
Qed.

Lemma StronglySorted_map {A B} (R : B -> B -> Prop) (f : A -> B) (l : list A) :
  StronglySorted (fun x y => R (f x) (f y)) l -> StronglySorted R (map f l).
Proof.
  induction 1 as [|x l _ IH F]; simpl; constructor; [exact IH|].
  apply Forall_map. exact F.
Qed.

Lemma StronglySorted_impl {A} (R R' : A -> A -> Prop) (l : list A) :
  (forall x y, R x y -> R' x y) -> StronglySorted R l -> StronglySorted R' l.
Proof.
  intros H. induction 1 as [|x l _ IH F]; constructor; [exact IH|].
  eapply Forall_impl; [|exact F]. intros y. apply H.
Qed.

Lemma py_range_sorted (a b : Z) : StronglySorted Z.lt (py_range a b).
Proof.
  unfold py_range. apply StronglySorted_map.
  generalize (Z.to_nat (b - a)) as m. generalize 0%nat as s.
  intros s m. revert s. induction m as [|m IH]; intro s; simpl; constructor.
  - apply IH.
  - apply Forall_forall. intros y Hy. apply in_seq in Hy. lia.
Qed.

Lemma str_eqb_eq (a b : str) : str_eqb a b = true <-> a = b.
Proof.
  unfold str_eqb. destruct (list_eq_dec Z.eq_dec a b); split; congruence.
Qed.

Section Els.

Context {U : UnicodeData}.

Variables (cleaned_ cu tu : str) (length_ n : Z).

Lemma els_starts_acc (skip_ : Z) : forall starts results,
  els_starts cleaned_ cu tu length_ n skip_ starts results
  = results ++ els_starts cleaned_ cu tu length_ n skip_ starts [].
Proof.
  induction starts as [|start rest IH]; intro results; simpl.
  - symmetry. apply app_nil_r.
  - destruct (_ >=? n); [symmetry; apply app_nil_r|].
    destruct (str_eqb _ tu).
    + rewrite IH. rewrite (IH [_]). rewrite <- app_assoc. reflexivity.
    + apply IH.
Qed.

(** The inner loop reports a sub-sequence of its starts, in their order. *)
Lemma els_starts_hits (skip_ : Z) : forall starts,
  StronglySorted Z.lt starts ->
  exists hs,
    els_starts cleaned_ cu tu length_ n skip_ starts []
    = map (els_result_of cleaned_ length_ skip_) hs
    /\ StronglySorted Z.lt hs
    /\ Forall (fun h => In h starts /\ reported cu tu length_ n skip_ h) hs.
Proof.
  induction starts as [|start rest IH]; intro Hs; simpl.
  - exists []. repeat split; constructor.
  - inversion Hs as [|? ? Hs' Hlt]; subst.
    destruct (Z.geb_spec (start + (length_ - 1) * skip_) n) as [Hge|Hlt'].
    + exists []. repeat split; constructor.
    + destruct (IH Hs') as [hs [E [S F]]].
      assert (F' : Forall (fun h => In h (start :: rest) /\ reported cu tu length_ n skip_ h) hs).
      { eapply Forall_impl; [|exact F]. simpl. intros h [A B]. auto. }
      destruct (str_eqb _ tu) eqn:Q.
      * apply str_eqb_eq in Q.
        exists (start :: hs). rewrite els_starts_acc, E. simpl.
        split; [reflexivity|]. split.
        -- constructor; [exact S|].
           rewrite Forall_forall in *. intros h Hh.
           apply Hlt. apply F. exact Hh.
        -- constructor; [|exact F'].
           split; [left; reflexivity|]. split; assumption.
      * exists hs. auto.
Qed.

Lemma els_fold_acc (starts : list Z) : forall skips results,
  fold_left
    (fun results skip_ => els_starts cleaned_ cu tu length_ n skip_ starts results)
    skips results
  = results
    ++ flat_map (fun skip_ => els_starts cleaned_ cu tu length_ n skip_ starts []) skips.
Proof.
  induction skips as [|k ks IH]; intro results; simpl.
  - symmetry. apply app_nil_r.
  - rewrite IH, els_starts_acc, <- app_assoc. reflexivity.
Qed.

(** The double loop reports hits in the order skip, then start. *)
Lemma els_loops_hits (starts : list Z) : StronglySorted Z.lt starts ->
  forall skips, StronglySorted Z.lt skips ->
  exists hits,
    flat_map (fun skip_ => els_starts cleaned_ cu tu length_ n skip_ starts []) skips
    = map (fun h => els_result_of cleaned_ length_ (fst h) (snd h)) hits
    /\ StronglySorted skip_then_start hits
    /\ Forall (fun h => In (fst h) skips /\ In (snd h) starts
                        /\ reported cu tu length_ n (fst h) (snd h)) hits.
Proof.
  intros Hs. induction skips as [|k ks IH]; intro Hk; simpl.
  - exists []. repeat split; constructor.
  - inversion Hk as [|? ? Hk' Hlt]; subst.
    destruct (IH Hk') as [hits [E [S F]]].
    destruct (els_starts_hits k starts Hs) as [hs [E1 [S1 F1]]].
    exists (map (pair k) hs ++ hits).
    rewrite E, E1, map_app, map_map. simpl.
    split; [reflexivity|]. split.
    + apply StronglySorted_app; [| exact S |].
      * apply StronglySorted_map. eapply StronglySorted_impl; [|exact S1].
        intros x y Hxy. right. simpl. auto.
      * intros x y Hx Hy. apply in_map_iff in Hx. destruct Hx as [h [<- _]].
        left. simpl. rewrite Forall_forall in *. apply Hlt. apply F. exact Hy.
    + apply Forall_app. split.
      * apply Forall_map. eapply Forall_impl; [|exact F1].
        simpl. intros h [A B]. auto.
      * eapply Forall_impl; [|exact F]. simpl. intros h [A B]. auto.
Qed.

End Els.

Section ElsResults.

Context {U : UnicodeData}.

Lemma ascii_letter_is_ascii (c : Z) : is_ascii_letter c = true -> is_ascii c = true.
Proof. unfold is_ascii_letter, is_ascii. lia. Qed.

Lemma cleaned_ascii (text_ : str) :
  Forall (fun c => is_ascii c = true) (filter is_ascii_letter text_).
Proof.
  apply Forall_forall. intros c H. apply filter_In in H.
  apply ascii_letter_is_ascii, H.
Qed.

Lemma char_at_upper_single (s : str) (p : Z) :
  single_upper s -> char_at (upper s) p = up1 (char_at s p).
Proof.
  intro H. rewrite (upper_single _ H). unfold char_at.
  exact (map_nth up1 s 0 (Z.to_nat p)).
Qed.

Lemma char_at_ascii (s : str) (p : Z) :
  Forall (fun c => is_ascii c = true) s -> is_ascii (char_at s p) = true.
Proof.
  intro H. unfold char_at.
  destruct (nth_in_or_default (Z.to_nat p) s 0) as [I|E].
  - rewrite Forall_forall in H. apply H, I.
  - rewrite E. reflexivity.
Qed.

(** The results of [find_els] are the results of a list of hits
    [(skip, start)] that is sorted by skip, then start; every hit has its
    skip from 1 to [max_skip], its start inside the cleaned letters, and
    was reported by the test of the inner loop. *)
Lemma find_els_hits (text_ term : str) (max_skip : Z) :
  let cleaned_ := filter is_ascii_letter text_ in
  let length_ := len (upper term) in
  exists hits,
    find_els text_ term max_skip
    = map (fun h => els_result_of cleaned_ length_ (fst h) (snd h)) hits
    /\ StronglySorted skip_then_start hits
    /\ Forall (fun h => 1 <= fst h <= max_skip
                        /\ 0 <= snd h < len cleaned_
                        /\ reported (upper cleaned_) (upper term) length_ (len cleaned_)
                             (fst h) (snd h)) hits.
Proof.
  intros cleaned_ length_. unfold find_els. fold cleaned_. fold length_.
  assert (Hn : len (upper cleaned_) = len cleaned_)
    by (apply upper_len_single, single_upper_ascii, cleaned_ascii).
  rewrite Hn, els_fold_acc. simpl.
  destruct (els_loops_hits cleaned_ (upper cleaned_) (upper term) length_ (len cleaned_)
              (py_range 0 (len cleaned_)) (py_range_sorted _ _)
              (py_range 1 (max_skip + 1)) (py_range_sorted _ _)) as [hits [E [S F]]].
  exists hits. split; [exact E|]. split; [exact S|].
  eapply Forall_impl; [|exact F]. simpl.
  intros h [A [B C]]. apply in_py_range in A, B. repeat split; try lia; apply C.
Qed.

Lemma hit_positions_valid (length_ n k s : Z) :
  1 <= k -> 0 <= s -> s + (length_ - 1) * k < n ->
  Forall (fun p => 0 <= p < n) (map (fun i => s + i * k) (py_range 0 length_)).
Proof.
  intros Hk Hs He. apply Forall_map, Forall_forall. intros i Hi.
  apply in_py_range in Hi. nia.
Qed.

Lemma hit_first_position (length_ k s : Z) :
  map (fun i => s + i * k) (py_range 0 length_) <> [] ->
  hd 0 (map (fun i => s + i * k) (py_range 0 length_)) = s.
Proof.
  unfold py_range. destruct (Z.to_nat (length_ - 0)); simpl; [congruence|].
  intros _. lia.
Qed.

(** A hit gives a result that the specification's description fits, with
    the length of the uppercased term as the term length. *)
Lemma hit_result_claim (text_ term : str) (max_skip k s : Z) :
  let cleaned_ := filter is_ascii_letter text_ in
  let length_ := len (upper term) in
  1 <= k <= max_skip -> 0 <= s < len cleaned_ ->
  reported (upper cleaned_) (upper term) length_ (len cleaned_) k s ->
  els_claim length_ text_ term max_skip (els_result_of cleaned_ length_ k s).
Proof.
  intros cleaned_ length_ Hk Hs [He Hq].
  assert (HL : 0 <= length_) by apply len_nonneg.
  unfold els_claim. simpl.
  split; [exact Hk|]. split.
  { rewrite len_map. rewrite len_py_range; lia. }
  split.
  { exists s. repeat split; try lia. }
  split.
  { apply hit_positions_valid; lia. }
  split; [reflexivity|].
  rewrite map_map. rewrite <- Hq.
  rewrite upper_single.
  - rewrite map_map. apply map_ext. intro i.
    symmetry. apply char_at_upper_single, single_upper_ascii, cleaned_ascii.
  - apply single_upper_ascii, Forall_map, Forall_forall. intros i _.
    apply char_at_ascii, cleaned_ascii.
Qed.

End ElsResults.

(** C1, amended.  Every result that the ELS matcher returns has its skip
    from 1 to the upper bound; its positions are as many as the uppercased
    term has characters ([length = len(tu)] in the code), start at a valid
    index and go up by exactly the skip; the last sampled index
    [start + (L - 1) * skip] is below the number of cleaned letters (so every
    position is a valid index); [cleaned] is the letters of the verse; and the
    characters of [cleaned] at the positions, uppercased, are the uppercased
    term.  When each character of the term uppercases to one character, the
    number of positions is the length of the term, as the specification has
    it. *)
Theorem find_els_results_spell_term :
  forall (U : UnicodeData) (text_ term : str) (max_skip : Z) (r : els_result),
  In r (find_els text_ term max_skip) ->
  els_claim (len (upper term)) text_ term max_skip r
  /\ (single_upper term -> els_claim (len term) text_ term max_skip r).
Proof.
  intros U text_ term max_skip r H.
  destruct (find_els_hits text_ term max_skip) as [hits [E [_ F]]].
  rewrite E in H. apply in_map_iff in H. destruct H as [[k s] [<- I]].
  rewrite Forall_forall in F. destruct (F _ I) as [A [B C]].
  pose proof (hit_result_claim text_ term max_skip k s A B C) as G.
  split; [exact G|]. intro Ht.
  rewrite <- (upper_len_single _ Ht). exact G.
Qed.

Lemma find_els_results_spell_term_witness :
  let r := {| skip := 2; positions := [0; 2; 4]; cleaned := codes "GaObDc" |} in
  In r (find_els (U := latin1_fragment) (codes "Ga Ob, Dc") (codes "god") 50)
  /\ els_claim (len (upper (codes "god"))) (codes "Ga Ob, Dc") (codes "god") 50 r
  /\ (single_upper (codes "god") ->
      els_claim (len (codes "god")) (codes "Ga Ob, Dc") (codes "god") 50 r).
Proof.
  intro r.
  assert (H : In r (find_els (U := latin1_fragment) (codes "Ga Ob, Dc") (codes "god") 50))
    by (vm_compute; left; reflexivity).
  split; [exact H|].
  exact (find_els_results_spell_term latin1_fragment _ _ _ r H).
Defined.

(** C1 as stated fails where the term changes length when uppercased: the
    term U+00DF has one character, its uppercase SS has two, and the result
    found in the verse ss has two positions. *)
Lemma find_els_claim_counterexample :
  exists r,
    In r (find_els (U := latin1_fragment) (codes "ss") [223] default_max_skip)
    /\ ~ els_claim (len [223]) (codes "ss") [223] default_max_skip r.
Proof.
  exists {| skip := 1; positions := [0; 1]; cleaned := codes "ss" |}.
  split; [vm_compute; left; reflexivity|].
  intros [_ [L _]]. vm_compute in L. discriminate.
Qed.

(** C7.  The results of the ELS matcher come in the order of the double
    loop: they are the results of hits [(skip, start)] sorted by increasing
    skip and, at equal skip, by increasing start; read off the results, every
    result has a skip below that of every later one, or the same skip and a
    smaller first position. *)
Theorem find_els_order_skip_then_start :
  forall (U : UnicodeData) (text_ term : str) (max_skip : Z),
  (exists hits,
     find_els text_ term max_skip
     = map (fun h => els_result_of (filter is_ascii_letter text_) (len (upper term))
                       (fst h) (snd h)) hits
     /\ StronglySorted skip_then_start hits)
  /\ StronglySorted els_before (find_els text_ term max_skip).
Proof.
  intros U text_ term max_skip.
  destruct (find_els_hits text_ term max_skip) as [hits [E [S _]]].
  split; [exists hits; auto|].
  rewrite E. apply StronglySorted_map.
  eapply StronglySorted_impl; [|exact S].
  intros [k1 s1] [k2 s2] [Lt | [Eq Lt]]; unfold els_before; simpl in *.
  - left. exact Lt.
  - right. split; [exact Eq|]. intro Hne. subst k2.
    rewrite hit_first_position by exact Hne.
    rewrite hit_first_position; [exact Lt|].
    intro Hn. apply Hne. apply map_eq_nil in Hn. rewrite Hn. reflexivity.
Qed.

(** ** The highlighter *)

Lemma replace_char_app (c : Z) (by_ a b : str) :
  replace_char c by_ (a ++ b) = replace_char c by_ a ++ replace_char c by_ b.
Proof. apply flat_map_app. Qed.

(** The three replacements in a row escape each character on its own: the
    ampersand of an entity is written after the ampersands were replaced. *)
Lemma escape_html_chars (text_ : str) : escape_html text_ = flat_map esc_char text_.
Proof.
  unfold escape_html. induction text_ as [|c s IH]; [reflexivity|].
  change (c :: s) with ([c] ++ s).
  rewrite !replace_char_app, IH. simpl flat_map. f_equal.
  unfold esc_char, replace_char. simpl.
  destruct (Z.eqb_spec c 38) as [->|N38]; [reflexivity|].
  simpl.
  destruct (Z.eqb_spec c 60) as [->|N60]; [reflexivity|].
  simpl.
  destruct (Z.eqb_spec c 62) as [->|N62]; reflexivity.
Qed.

Lemma escape_html_app (a b : str) :
  escape_html (a ++ b) = escape_html a ++ escape_html b.
Proof. rewrite !escape_html_chars. apply flat_map_app. Qed.

Lemma esc_char_no_lt (c : Z) : Forall (fun x => x <> 60) (esc_char c).
Proof.
  unfold esc_char.
  destruct (Z.eqb_spec c 38); [repeat constructor; discriminate|].
  destruct (Z.eqb_spec c 60); [repeat constructor; discriminate|].
  destruct (Z.eqb_spec c 62); [repeat constructor; discriminate|].
  repeat constructor. assumption.
Qed.

Lemma escape_html_no_lt (s : str) : Forall (fun x => x <> 60) (escape_html s).
Proof.
  rewrite escape_html_chars. induction s as [|c s IH]; simpl; [constructor|].
  apply Forall_app. split; [apply esc_char_no_lt | exact IH].
Qed.

(** A string does not begin with [sub] when its first character is not
    that of [sub]. *)
Lemma starts_with_other_head (sub : str) (c : Z) (s : str) :
  hd c sub <> c -> starts_with sub (c :: s) = false.
Proof.
  destruct sub as [|x sub]; simpl; [congruence|].
  intro H. destruct (Z.eqb_spec x c); [congruence | reflexivity].
Qed.

Lemma unescape_esc_char (c : Z) (rest : str) :
  unescape_from 0 (esc_char c ++ rest) = c :: unescape_from 0 rest.
Proof.
  unfold esc_char.
  destruct (Z.eqb_spec c 38) as [->|N38]; [reflexivity|].
  destruct (Z.eqb_spec c 60) as [->|N60]; [reflexivity|].
  destruct (Z.eqb_spec c 62) as [->|N62]; [reflexivity|].
  cbn [app]. unfold unescape_from; fold unescape_from.
  rewrite !(starts_with_other_head _ c) by (simpl; congruence).
  reflexivity.
Qed.

(** Un-escaping undoes [escape_html]. *)
Lemma unescape_escape (s : str) : unescape_html (escape_html s) = s.
Proof.
  unfold unescape_html. rewrite escape_html_chars.
  induction s as [|c s IH]; [reflexivity|].
  simpl. rewrite unescape_esc_char, IH. reflexivity.
Qed.

(** *** Markers *)

Lemma strip_from_0_cons (css_class : str) (c : Z) (s : str) :
  strip_from css_class 0 (c :: s)
  = if starts_with (span_open css_class) (c :: s)
    then strip_from css_class (length (span_open css_class) - 1) s
    else if starts_with span_close (c :: s)
    then strip_from css_class (length span_close - 1) s
    else c :: strip_from css_class 0 s.
Proof. reflexivity. Qed.

Lemma count_from_0_cons (css_class : str) (c : Z) (s : str) :
  count_from css_class 0 (c :: s)
  = if starts_with (span_open css_class) (c :: s)
    then 1 + count_from css_class (length (span_open css_class) - 1) s
    else if starts_with span_close (c :: s)
    then count_from css_class (length span_close - 1) s
    else count_from css_class 0 s.
Proof. reflexivity. Qed.

Lemma span_open_head (css_class : str) :
  exists t, span_open css_class = 60 :: t.
Proof. eexists. reflexivity. Qed.

Lemma span_open_not_close (css_class rest : str) :
  starts_with (span_open css_class) (span_close ++ rest) = false.
Proof. reflexivity. Qed.

Lemma strip_from_skip (css_class : str) : forall (a rest : str),
  strip_from css_class (length a) (a ++ rest) = strip_from css_class 0 rest.
Proof.
  induction a as [|c a IH]; intro rest; [reflexivity|]. simpl. apply IH.
Qed.

Lemma count_from_skip (css_class : str) : forall (a rest : str),
  count_from css_class (length a) (a ++ rest) = count_from css_class 0 rest.
Proof.
  induction a as [|c a IH]; intro rest; [reflexivity|]. simpl. apply IH.
Qed.

Lemma strip_open (css_class rest : str) :
  strip_from css_class 0 (span_open css_class ++ rest) = strip_from css_class 0 rest.
Proof.
  destruct (span_open_head css_class) as [t E].
  pose proof (starts_with_app (span_open css_class) rest) as Hs.
  rewrite E in Hs at 2. rewrite E at 1.
  cbn [app] in *. rewrite strip_from_0_cons, Hs.
  rewrite E. cbn [length].
  replace (S (length t) - 1)%nat with (length t) by lia.
  apply strip_from_skip.
Qed.

Lemma count_open (css_class rest : str) :
  count_from css_class 0 (span_open css_class ++ rest)
  = 1 + count_from css_class 0 rest.
Proof.
  destruct (span_open_head css_class) as [t E].
  pose proof (starts_with_app (span_open css_class) rest) as Hs.
  rewrite E in Hs at 2. rewrite E at 1.
  cbn [app] in *. rewrite count_from_0_cons, Hs.
  rewrite E. cbn [length].
  replace (S (length t) - 1)%nat with (length t) by lia.
  rewrite count_from_skip. reflexivity.
Qed.

Lemma strip_close (css_class rest : str) :
  strip_from css_class 0 (span_close ++ rest) = strip_from css_class 0 rest.
Proof.
  change (span_close ++ rest) with (60 :: (codes "/span>" ++ rest)).
  rewrite strip_from_0_cons.
  change (60 :: (codes "/span>" ++ rest)) with (span_close ++ rest).
  rewrite span_open_not_close, starts_with_app. reflexivity.
Qed.

Lemma count_close (css_class rest : str) :
  count_from css_class 0 (span_close ++ rest) = count_from css_class 0 rest.
Proof.
  change (span_close ++ rest) with (60 :: (codes "/span>" ++ rest)).
  rewrite count_from_0_cons.
  change (60 :: (codes "/span>" ++ rest)) with (span_close ++ rest).
  rewrite span_open_not_close, starts_with_app. reflexivity.
Qed.

(** Text without [<] holds no marker. *)
Lemma strip_plain (css_class : str) : forall (a rest : str),
  Forall (fun x => x <> 60) a ->
  strip_from css_class 0 (a ++ rest) = a ++ strip_from css_class 0 rest.
Proof.
  induction a as [|c a IH]; intros rest H; [reflexivity|].
  inversion H as [|? ? Hc Ha]; subst.
  cbn [app]. rewrite strip_from_0_cons.
  rewrite !(starts_with_other_head _ c) by (simpl; congruence).
  rewrite IH by exact Ha. reflexivity.
Qed.

Lemma count_plain (css_class : str) : forall (a rest : str),
  Forall (fun x => x <> 60) a ->
  count_from css_class 0 (a ++ rest) = count_from css_class 0 rest.
Proof.
  induction a as [|c a IH]; intros rest H; [reflexivity|].
  inversion H as [|? ? Hc Ha]; subst.
  cbn [app]. rewrite count_from_0_cons.
  rewrite !(starts_with_other_head _ c) by (simpl; congruence).
  apply IH. exact Ha.
Qed.

(** Stripping the markers of a marked string leaves the escaped characters
    that it carries. *)
Lemma strip_marked (text_ css_class : str) : forall ms last,
  strip_markers css_class (marked text_ css_class last ms)
  = escape_html (covered text_ last ms).
Proof.
  unfold strip_markers.
  induction ms as [|[start l] ms IH]; intro last; cbn [marked covered].
  - rewrite <- (app_nil_r (escape_html _)) at 1.
    rewrite strip_plain by apply escape_html_no_lt. simpl. apply app_nil_r.
  - rewrite strip_plain by apply escape_html_no_lt.
    rewrite <- !app_assoc. rewrite strip_open.
    rewrite strip_plain by apply escape_html_no_lt.
    rewrite strip_close, IH, !escape_html_app. reflexivity.
Qed.

(** A marked string has one opening marker for each interval. *)
Lemma count_marked (text_ css_class : str) : forall ms last,
  count_spans css_class (marked text_ css_class last ms) = len ms.
Proof.
  unfold count_spans.
  induction ms as [|[start l] ms IH]; intro last; cbn [marked].
  - rewrite <- (app_nil_r (escape_html _)).
    rewrite count_plain by apply escape_html_no_lt. reflexivity.
  - rewrite count_plain by apply escape_html_no_lt.
    rewrite <- !app_assoc. rewrite count_open.
    rewrite count_plain by apply escape_html_no_lt.
    rewrite count_close, IH. unfold len. simpl length. lia.
Qed.

(** *** highlight_text *)

Lemma py_slice_from_0 (s : str) : py_slice_from s 0 = s.
Proof.
  unfold py_slice_from, adjust_index. simpl.
  pose proof (len_nonneg s). rewrite Z.min_l by lia. reflexivity.
Qed.

Lemma highlight_fold (text_ css_class : str) : forall ms parts last,
  let r := fold_left (highlight_step text_ css_class) ms (parts, last) in
  concat (fst r ++ [escape_html (py_slice_from text_ (snd r))])
  = concat parts ++ marked text_ css_class last ms.
Proof.
  induction ms as [|[start l] ms IH]; intros parts last; cbn [fold_left marked].
  - simpl. rewrite concat_app. simpl. rewrite app_nil_r. reflexivity.
  - cbn [highlight_step]. cbv zeta in *. rewrite IH.
    rewrite !concat_app. cbn [concat]. rewrite !app_nil_r, <- !app_assoc.
    reflexivity.
Qed.

(** The highlighter writes the marked string of its intervals, sorted. *)
Lemma highlight_text_marked (text_ css_class : str) (ms : list (Z * Z)) :
  highlight_text text_ ms css_class = marked text_ css_class 0 (sorted_by_start ms).
Proof.
  unfold highlight_text. destruct ms as [|m ms].
  - simpl. rewrite py_slice_from_0. reflexivity.
  - pose proof (highlight_fold text_ css_class (sorted_by_start (m :: ms)) [] 0) as H.
    cbv zeta in H.
    destruct (fold_left (highlight_step text_ css_class) (sorted_by_start (m :: ms)) ([], 0))
      as [parts last].
    exact H.
Qed.

Lemma insert_by_start_Forall (P : Z * Z -> Prop) (m : Z * Z) (l : list (Z * Z)) :
  P m -> Forall P l -> Forall P (insert_by_start m l).
Proof.
  intros Hm. induction 1 as [|x l Hx Hl IH]; simpl.
  - constructor; [exact Hm | constructor].
  - destruct (fst m <=? fst x); repeat constructor; assumption.
Qed.

Lemma sorted_by_start_Forall (P : Z * Z -> Prop) (l : list (Z * Z)) :
  Forall P l -> Forall P (sorted_by_start l).
Proof.
  induction 1 as [|x l Hx Hl IH]; simpl; [constructor|].
  apply insert_by_start_Forall; assumption.
Qed.

Lemma insert_by_start_length (m : Z * Z) (l : list (Z * Z)) :
  length (insert_by_start m l) = S (length l).
Proof.
  induction l as [|x l IH]; simpl; [reflexivity|].
  destruct (fst m <=? fst x); simpl; [reflexivity | rewrite IH; reflexivity].
Qed.

Lemma sorted_by_start_len (l : list (Z * Z)) : len (sorted_by_start l) = len l.
Proof.
  unfold len. induction l as [|x l IH]; simpl; [reflexivity|].
  rewrite insert_by_start_length. lia.
Qed.

Lemma insert_by_start_sorted (m : Z * Z) (l : list (Z * Z)) :
  StronglySorted (fun a b => fst a <= fst b) l ->
  StronglySorted (fun a b => fst a <= fst b) (insert_by_start m l).
Proof.
  induction 1 as [|x l Hs IH Hx]; simpl.
  - repeat constructor.
  - destruct (Z.leb_spec (fst m) (fst x)) as [Le|Gt].
    + constructor; [constructor; assumption|].
      constructor; [exact Le|].
      eapply Forall_impl; [|exact Hx]. simpl. intros b Hb. lia.
    + constructor; [exact IH|].
      apply insert_by_start_Forall; [lia | exact Hx].
Qed.

Lemma sorted_by_start_sorted (l : list (Z * Z)) :
  StronglySorted (fun a b => fst a <= fst b) (sorted_by_start l).
Proof.
  induction l as [|x l IH]; simpl; [constructor|].
  apply insert_by_start_sorted, IH.
Qed.

Lemma disjoint_sym (a b : Z * Z) : disjoint a b -> disjoint b a.
Proof. unfold disjoint. tauto. Qed.

Lemma insert_by_start_non_overlapping (m : Z * Z) (l : list (Z * Z)) :
  Forall (disjoint m) l -> non_overlapping l -> non_overlapping (insert_by_start m l).
Proof.
  unfold non_overlapping. intros Hm Hl. revert Hm.
  induction Hl as [|x l Hx Hl IH]; intro Hm; simpl.
  - constructor; [constructor | constructor].
  - inversion Hm as [|? ? Hmx Hml]; subst.
    destruct (fst m <=? fst x).
    + constructor; [exact Hm|]. constructor; assumption.
    + constructor; [|apply IH; exact Hml].
      apply insert_by_start_Forall; [apply disjoint_sym; exact Hmx | exact Hx].
Qed.

Lemma sorted_by_start_non_overlapping (l : list (Z * Z)) :
  non_overlapping l -> non_overlapping (sorted_by_start l).
Proof.
  unfold non_overlapping. induction 1 as [|x l Hx Hl IH]; simpl; [constructor|].
  apply insert_by_start_non_overlapping; [|exact IH].
  apply sorted_by_start_Forall. exact Hx.
Qed.

(** Sorted by start, without overlap and of positive length: each interval
    ends before the next ones start. *)
Lemma sorted_non_overlapping_ordered (l : list (Z * Z)) :
  StronglySorted (fun a b => fst a <= fst b) l ->
  non_overlapping l ->
  Forall (fun m => 0 < snd m) l ->
  ordered_disjoint l.
Proof.
  unfold non_overlapping, ordered_disjoint.
  induction 1 as [|x l Hs IH Hx]; intros Hn Hp; [constructor|].
  inversion Hn as [|? ? Hd Hn']; subst.
  inversion Hp as [|? ? Hpx Hp']; subst.
  constructor; [apply IH; assumption|].
  rewrite Forall_forall in *. intros b Hb.
  specialize (Hx b Hb). specialize (Hd b Hb). specialize (Hp' b Hb).
  unfold disjoint in Hd. simpl in *. lia.
Qed.

Lemma py_slice_join (s : str) (a b : Z) :
  0 <= a <= b -> b <= len s ->
  py_slice s a b ++ py_slice_from s b = py_slice_from s a.
Proof.
  intros Ha Hb. unfold py_slice, py_slice_from, adjust_index.
  destruct (Z.ltb_spec a 0); [lia|]. destruct (Z.ltb_spec b 0); [lia|].
  rewrite !Z.min_l by lia.
  replace (Z.to_nat b) with (Z.to_nat (b - a) + Z.to_nat a)%nat by lia.
  rewrite <- skipn_skipn_add. apply firstn_skipn.
Qed.

(** Ordered intervals inside the string cut it into consecutive pieces. *)
Lemma covered_all (text_ : str) : forall ms last,
  0 <= last ->
  ordered_disjoint ms ->
  Forall (in_bounds text_) ms ->
  Forall (fun m => last <= fst m) ms ->
  covered text_ last ms = py_slice_from text_ last.
Proof.
  unfold ordered_disjoint.
  induction ms as [|[start l] ms IH]; intros last Hl Ho Hb Hf; [reflexivity|].
  inversion Ho as [|? ? Ho' Hnext]; subst.
  inversion Hb as [|? ? [B1 [B2 B3]] Hb']; subst.
  inversion Hf as [|? ? F1 _]; subst.
  simpl in *. rewrite IH; try assumption; [|lia].
  rewrite py_slice_join by lia. apply py_slice_join; lia.
Qed.



(** ** The verse parser *)

Section Regex.

Variables (p : Z -> bool) (k : matcher).

Lemma re_mark_sound (s : str) (pos : Z) (r : list Z) :
  re_mark k s pos = Some r -> exists r', r = pos :: r' /\ k s pos = Some r'.
Proof.
  unfold re_mark. destruct (k s pos) as [r'|]; simpl; [|discriminate].
  intro H. injection H as <-. exists r'. auto.
Qed.

Lemma re_mark_complete (s : str) (pos : Z) :
  accepts k s pos -> accepts (re_mark k) s pos.
Proof.
  intros [r H]. exists (pos :: r). unfold re_mark. rewrite H. reflexivity.
Qed.

Lemma re_one_sound (s : str) (pos : Z) (r : list Z) :
  re_one p k s pos = Some r ->
  exists c b, s = c :: b /\ p c = true /\ k b (pos + 1) = Some r.
Proof.
  unfold re_one. destruct s as [|c b]; [discriminate|].
  destruct (p c) eqn:E; [|discriminate]. intro H. exists c, b. auto.
Qed.


Lemma re_opt_sound (s : str) (pos : Z) (r : list Z) :
  re_opt p k s pos = Some r ->
  exists a b, s = a ++ b
    /\ (a = [] \/ exists c, a = [c] /\ p c = true)
    /\ k b (pos + len a) = Some r.
Proof.
  unfold re_opt. intro H.
  assert (N : k s pos = Some r ->
              exists a b, s = a ++ b
                /\ (a = [] \/ exists c, a = [c] /\ p c = true)
                /\ k b (pos + len a) = Some r).
  { intro K. exists [], s. change (len (@nil Z)) with 0. rewrite Z.add_0_r. auto. }
  destruct s as [|c b]; [auto|].
  destruct (p c) eqn:E; [|auto].
  destruct (k b (pos + 1)) as [r'|] eqn:K; [|auto].
  injection H as <-. exists [c], b. split; [reflexivity|]. split; [|exact K].
  right. exists c. auto.
Qed.


Lemma re_star_sound : forall (s : str) (pos : Z) (r : list Z),
  re_star p k s pos = Some r ->
  exists a b, s = a ++ b /\ forallb p a = true /\ k b (pos + len a) = Some r.
Proof.
  assert (N : forall s pos r, k s pos = Some r ->
              exists a b, s = a ++ b /\ forallb p a = true /\ k b (pos + len a) = Some r).
  { intros s pos r K. exists [], s. change (len (@nil Z)) with 0.
    rewrite Z.add_0_r. auto. }
  induction s as [|c s IH]; intros pos r H; simpl in H; [auto|].
  destruct (p c) eqn:E; [|auto].
  destruct (re_star p k s (pos + 1)) as [r'|] eqn:K; [|auto].
  injection H as <-. destruct (IH _ _ K) as [a [b [-> [F Kb]]]].
  exists (c :: a), b. split; [reflexivity|]. split; [simpl; rewrite E; exact F|].
  replace (pos + len (c :: a)) with (pos + 1 + len a); [exact Kb|].
  unfold len. simpl length. lia.
Qed.

Lemma re_star_accepts_below (s : str) (pos : Z) :
  accepts k s pos -> accepts (re_star p k) s pos.
Proof.
  unfold accepts. intros [r H]. destruct s as [|c s]; simpl; [eauto|].
  destruct (p c); [|eauto]. destruct (re_star p k s (pos + 1)); eauto.
Qed.


(** Before a continuation that accepts anywhere, the star takes every
    character it can. *)
Lemma re_star_longest : (forall s pos, accepts k s pos) ->
  forall (s : str) (pos : Z) (r : list Z),
  re_star p k s pos = Some r ->
  exists a b, s = a ++ b /\ forallb p a = true /\ k b (pos + len a) = Some r
    /\ (b = [] \/ exists c b', b = c :: b' /\ p c = false).
Proof.
  intro T. induction s as [|c s IH]; intros pos r H; simpl in H.
  - exists [], []. change (len (@nil Z)) with 0. rewrite Z.add_0_r. auto.
  - destruct (p c) eqn:E.
    + destruct (re_star p k s (pos + 1)) as [r'|] eqn:K.
      * injection H as <-. destruct (IH _ _ K) as [a [b [-> [F [Kb M]]]]].
        exists (c :: a), b. split; [reflexivity|].
        split; [simpl; rewrite E; exact F|]. split; [|exact M].
        replace (pos + len (c :: a)) with (pos + 1 + len a); [exact Kb|].
        unfold len. simpl length. lia.
      * destruct (re_star_accepts_below s (pos + 1) (T _ _)) as [r' K'].
        congruence.
    + exists [], (c :: s). change (len (@nil Z)) with 0. rewrite Z.add_0_r.
      split; [reflexivity|]. split; [reflexivity|]. split; [exact H|].
      right. exists c, s. auto.
Qed.

End Regex.

Lemma re_plus_sound (p : Z -> bool) (k : matcher) (s : str) (pos : Z) (r : list Z) :
  re_plus p k s pos = Some r ->
  exists a b, s = a ++ b /\ a <> [] /\ forallb p a = true
    /\ k b (pos + len a) = Some r.
Proof.
  unfold re_plus. intro H.
  apply re_one_sound in H. destruct H as [c [s' [-> [E H]]]].
  apply re_star_sound in H. destruct H as [a [b [-> [F K]]]].
  exists (c :: a), b. split; [reflexivity|]. split; [discriminate|].
  split; [simpl; rewrite E; exact F|].
  replace (pos + len (c :: a)) with (pos + 1 + len a); [exact K|].
  unfold len. simpl length. lia.
Qed.


Lemma re_end_accepts (s : str) (pos : Z) : accepts re_end s pos.
Proof. exists []. reflexivity. Qed.

Lemma py_slice_piece (s a b c : str) (i j : Z) :
  s = a ++ b ++ c -> i = len a -> j = i + len b -> py_slice s i j = b.
Proof.
  intros -> -> ->. unfold py_slice, adjust_index.
  pose proof (len_nonneg a). pose proof (len_nonneg b). pose proof (len_nonneg c).
  rewrite !len_app.
  destruct (Z.ltb_spec (len a) 0); [lia|].
  destruct (Z.ltb_spec (len a + len b) 0); [lia|].
  rewrite !Z.min_l by lia.
  replace (Z.to_nat (len a + len b - len a)) with (length b) by (unfold len; lia).
  replace (Z.to_nat (len a)) with (length a) by (unfold len; lia).
  rewrite skipn_app, skipn_all, Nat.sub_diag. simpl.
  rewrite firstn_app, firstn_all, Nat.sub_diag. simpl. apply app_nil_r.
Qed.

Section ParserProofs.

Context {U : UnicodeData}.

(** A match cuts the line into the pieces of the grammar, and the four
    groups are the book, the chapter, the verse number and the text up to
    the end of the line. *)
Lemma pattern_match_sound (line : str) (m : list Z) :
  pattern_match line = Some m ->
  exists num sp1 word sp2 ch vs sp3 txt tail,
    line = num ++ sp1 ++ word ++ sp2 ++ ch ++ [58] ++ vs ++ sp3 ++ txt ++ tail
    /\ (num = [] \/ exists d, num = [d] /\ 49 <= d <= 51)
    /\ forallb re_space sp1 = true
    /\ word <> [] /\ forallb re_word word = true
    /\ sp2 <> [] /\ forallb re_space sp2 = true
    /\ ch <> [] /\ forallb re_digit ch = true
    /\ vs <> [] /\ forallb re_digit vs = true
    /\ sp3 <> [] /\ forallb re_space sp3 = true
    /\ forallb re_dot txt = true
    /\ (tail = [] \/ exists t, tail = 10 :: t)
    /\ group line m 1 = num ++ sp1 ++ word
    /\ group line m 2 = ch
    /\ group line m 3 = vs
    /\ group line m 4 = txt.
Proof.
  unfold pattern_match, pattern. intro H.
  apply re_mark_sound in H. destruct H as [m1 [-> H]].
  apply re_opt_sound in H. destruct H as [num [s1 [-> [Hnum H]]]].
  apply re_star_sound in H. destruct H as [sp1 [s2 [-> [Hsp1 H]]]].
  apply re_plus_sound in H. destruct H as [word [s3 [-> [Hw0 [Hw H]]]]].
  apply re_mark_sound in H. destruct H as [m2 [-> H]].
  apply re_plus_sound in H. destruct H as [sp2 [s4 [-> [Hs20 [Hs2 H]]]]].
  apply re_mark_sound in H. destruct H as [m3 [-> H]].
  apply re_plus_sound in H. destruct H as [ch [s5 [-> [Hc0 [Hc H]]]]].
  apply re_mark_sound in H. destruct H as [m4 [-> H]].
  apply re_one_sound in H. destruct H as [c [s6 [-> [Hcol H]]]].
  apply Z.eqb_eq in Hcol. subst c.
  apply re_mark_sound in H. destruct H as [m5 [-> H]].
  apply re_plus_sound in H. destruct H as [vs [s7 [-> [Hv0 [Hv H]]]]].
  apply re_mark_sound in H. destruct H as [m6 [-> H]].
  apply re_plus_sound in H. destruct H as [sp3 [s8 [-> [Hs30 [Hs3 H]]]]].
  apply re_mark_sound in H. destruct H as [m7 [-> H]].
  apply re_star_longest in H;
    [|intros; apply re_mark_complete, re_end_accepts].
  destruct H as [txt [tail [-> [Ht [H Hmax]]]]].
  apply re_mark_sound in H. destruct H as [m8 [-> H]].
  injection H as <-.
  exists num, sp1, word, sp2, ch, vs, sp3, txt, tail.
  split; [reflexivity|].
  split.
  { destruct Hnum as [->|[d [-> Hd]]]; [left; reflexivity|].
    right. exists d. split; [reflexivity|]. unfold is_1_to_3 in Hd. lia. }
  do 12 (split; [assumption|]).
  split.
  { destruct Hmax as [->|[c [t [-> Hc']]]]; [left; reflexivity|].
    right. exists t. unfold re_dot in Hc'.
    destruct (Z.eqb_spec c 10); [subst; reflexivity | discriminate]. }
  unfold group. cbn [nth Nat.mul Nat.add Nat.sub].
  split; [|split; [|split]].
  - apply py_slice_piece with (a := []) (c := sp2 ++ ch ++ [58] ++ vs ++ sp3 ++ txt ++ tail).
    + simpl. rewrite <- !app_assoc. reflexivity.
    + reflexivity.
    + rewrite !len_app. lia.
  - apply py_slice_piece with (a := num ++ sp1 ++ word ++ sp2)
                              (c := [58] ++ vs ++ sp3 ++ txt ++ tail).
    + rewrite <- !app_assoc. reflexivity.
    + rewrite !len_app. lia.
    + reflexivity.
  - apply py_slice_piece with (a := num ++ sp1 ++ word ++ sp2 ++ ch ++ [58])
                              (c := sp3 ++ txt ++ tail).
    + rewrite <- !app_assoc. reflexivity.
    + rewrite !len_app. change (len [58]) with 1. lia.
    + reflexivity.
  - apply py_slice_piece with (a := num ++ sp1 ++ word ++ sp2 ++ ch ++ [58] ++ vs ++ sp3)
                              (c := tail).
    + rewrite <- !app_assoc. reflexivity.
    + rewrite !len_app. change (len [58]) with 1. lia.
    + reflexivity.
Qed.



(** The loop of [load_bible] appends, line after line, the verse of the
    line, if it has one. *)
Lemma load_bible_flat_map (lines : list str) :
  load_bible lines = flat_map verses_of_line lines.
Proof.
  unfold load_bible.
  assert (G : forall ls acc,
    fold_left
      (fun verses line =>
         match pattern_match line with
         | Some m =>
             verses ++ [{| book := group line m 1;
                           chapter := group line m 2;
                           verse := group line m 3;
                           text := group line m 4 |}]
         | None => verses
         end) ls acc
    = acc ++ flat_map verses_of_line ls).
  { induction ls as [|l ls IH]; intro acc; simpl.
    - symmetry. apply app_nil_r.
    - rewrite IH. unfold verses_of_line at 2, parse_line.
      destruct (pattern_match l); simpl.
      + rewrite <- app_assoc. reflexivity.
      + reflexivity. }
  apply (G lines []).
Qed.

End ParserProofs.

Section VerseRecords.

Context {U : UnicodeData}.

Lemma parse_line_sound (line : str) (v : Verse) :
  parse_line line = Some v -> parsed_as line v.
Proof.
  unfold parse_line. destruct (pattern_match line) as [m|] eqn:M; [|discriminate].
  intro H. injection H as <-.
  apply pattern_match_sound in M.
  destruct M as (num & sp1 & word & sp2 & ch & vs & sp3 & txt & tail & E & Hnum & Hsp1
                 & Hw0 & Hw & Hs20 & Hs2 & Hc0 & Hc & Hv0 & Hv & Hs30 & Hs3 & Ht & Htail
                 & G1 & G2 & G3 & G4).
  exists num, sp1, word, sp2, sp3, tail. simpl.
  rewrite G1, G2, G3, G4. unfold is_number.
  split; [rewrite E, <- !app_assoc; reflexivity|].
  repeat split; try assumption; reflexivity.
Qed.


Lemma in_load_bible (lines : list str) (v : Verse) :
  In v (load_bible lines) <-> exists line, In line lines /\ parse_line line = Some v.
Proof.
  rewrite load_bible_flat_map, in_flat_map. unfold verses_of_line. split.
  - intros [line [I H]]. exists line. split; [exact I|].
    destruct (parse_line line) as [w|]; simpl in H; [|contradiction].
    destruct H as [->|[]]. reflexivity.
  - intros [line [I H]]. exists line. split; [exact I|]. rewrite H. left. reflexivity.
Qed.

Lemma digit_value_range (c : Z) : re_digit c = true -> 0 <= digit_value c <= 9.
Proof.
  unfold re_digit, digit_value. destruct (is_ascii c).
  - unfold ascii_isdigit. lia.
  - apply uni_digit_value_range.
Qed.

Lemma fold_digits_nonneg : forall (s : str) (acc : Z),
  0 <= acc -> forallb re_digit s = true ->
  0 <= fold_left (fun acc c => 10 * acc + digit_value c) s acc.
Proof.
  induction s as [|c s IH]; intros acc Ha F; cbn [fold_left]; [exact Ha|].
  cbn [forallb] in F. apply andb_prop in F. destruct F as [Fc F].
  apply IH; [|exact F]. pose proof (digit_value_range c Fc). lia.
Qed.

Lemma int_of_digits_nonneg (s : str) :
  forallb re_digit s = true -> 0 <= int_of_digits s.
Proof. apply fold_digits_nonneg. lia. Qed.

End VerseRecords.


(** C6, amended.  Every verse record that the parser produces has a
    chapter and a verse number that are strings of one or more decimal
    digits; their numeric values are integers that are not negative. *)
Theorem load_bible_numbers_are_digits :
  forall (U : UnicodeData) (lines : list str) (v : Verse),
  In v (load_bible lines) ->
  is_number (chapter v) /\ is_number (verse v)
  /\ 0 <= int_of_digits (chapter v) /\ 0 <= int_of_digits (verse v).
Proof.
  intros U lines v H. apply in_load_bible in H. destruct H as [line [_ H]].
  apply parse_line_sound in H.
  destruct H as (num & sp1 & word & sp2 & sp3 & tail & _ & _ & _ & _ & _ & _ & _ & _
                 & Hc & Hv & _).
  split; [exact Hc|]. split; [exact Hv|].
  split; apply int_of_digits_nonneg; [apply Hc | apply Hv].
Qed.

Lemma load_bible_numbers_are_digits_witness :
  let v := {| book := codes "Genesis"; chapter := codes "1"; verse := codes "2";
              text := codes "And the earth" |} in
  In v (load_bible (U := latin1_fragment) [codes "Genesis 1:2 And the earth" ++ [10]])
  /\ is_number (chapter v) /\ is_number (verse v)
  /\ 0 <= int_of_digits (chapter v) /\ 0 <= int_of_digits (verse v).
Proof.
  intro v.
  assert (H : In v (load_bible (U := latin1_fragment)
                      [codes "Genesis 1:2 And the earth" ++ [10]]))
    by (vm_compute; left; reflexivity).
  split; [exact H|].
  exact (load_bible_numbers_are_digits latin1_fragment _ v H).
Defined.

(** C6 as stated fails: the grammar takes any digits, and the line
    Genesis 0:0 x gives a verse whose chapter and verse number are zero. *)
Lemma load_bible_zero_chapter_counterexample :
  exists v,
    In v (load_bible (U := latin1_fragment) [codes "Genesis 0:0 x" ++ [10]])
    /\ ~ positive_numbers v.
Proof.
  exists {| book := codes "Genesis"; chapter := codes "0"; verse := codes "0";
            text := codes "x" |}.
  split; [vm_compute; left; reflexivity|].
  intros [C _]. vm_compute in C. apply C. reflexivity.
Qed.

(** ** The report assembler *)

Lemma escape_html_no_angle (s : str) :
  Forall (fun x => x <> 60 /\ x <> 62) (escape_html s).
Proof.
  rewrite escape_html_chars. induction s as [|c s IH]; simpl; [constructor|].
  apply Forall_app. split; [|exact IH].
  unfold esc_char.
  destruct (Z.eqb_spec c 38); [repeat constructor; discriminate|].
  destruct (Z.eqb_spec c 60); [repeat constructor; discriminate|].
  destruct (Z.eqb_spec c 62); [repeat constructor; discriminate|].
  repeat constructor; assumption.
Qed.

(** The highlighter writes one opening marker for each interval. *)
Lemma count_spans_highlight (text_ css_class : str) (ms : list (Z * Z)) :
  count_spans css_class (highlight_text text_ ms css_class) = len ms.
Proof.
  rewrite highlight_text_marked, count_marked. apply sorted_by_start_len.
Qed.

Lemma spans_in_app (css_class : str) (a b : list (str * str)) :
  spans_in css_class (a ++ b) = spans_in css_class a + spans_in css_class b.
Proof.
  unfold spans_in. induction a as [|x a IH]; simpl; [reflexivity|].
  rewrite IH. lia.
Qed.

Lemma block_lines_app (a b : list (str * str)) :
  block_lines (a ++ b) = block_lines a ++ block_lines b.
Proof. apply flat_map_app. Qed.

Section ReportProofs.

Context {U : UnicodeData}.

Variables (find : str -> str -> option (list (Z * Z))) (css_class : str).

Lemma matches_section_blocks (term : str) : forall verses html out,
  matches_section find css_class verses term html = Some out ->
  out = html ++ block_lines (match_blocks find css_class verses term).
Proof.
  induction verses as [|v vs IH]; intros html out H; simpl in H.
  - injection H as <-. symmetry. apply app_nil_r.
  - unfold match_blocks. cbn [flat_map]. fold (match_blocks find css_class vs term).
    destruct (find (text v) term) as [[|m ms]|]; [| |discriminate].
    + apply IH in H. exact H.
    + apply IH in H. rewrite H, block_lines_app, <- !app_assoc. reflexivity.
Qed.

Lemma matches_section_total (term : str) : forall verses html,
  (forall v, In v verses -> exists ms, find (text v) term = Some ms) ->
  exists out, matches_section find css_class verses term html = Some out.
Proof.
  induction verses as [|v vs IH]; intros html T; simpl; [eauto|].
  destruct (T v (or_introl eq_refl)) as [ms ->].
  destruct ms; apply IH; intros w Hw; apply T; right; exact Hw.
Qed.

Lemma sum_matches_total (term : str) : forall verses,
  (forall v, In v verses -> exists ms, find (text v) term = Some ms) ->
  exists n, sum_matches find verses term = Some n.
Proof.
  induction verses as [|v vs IH]; intros T; simpl; [eauto|].
  destruct (T v (or_introl eq_refl)) as [ms ->].
  destruct IH as [n ->]; [intros w Hw; apply T; right; exact Hw|]. eauto.
Qed.

(** The sum of the lengths is the number of markers in the blocks. *)
Lemma sum_matches_spans (term : str) : forall verses n,
  sum_matches find verses term = Some n ->
  n = spans_in css_class (match_blocks find css_class verses term).
Proof.
  induction verses as [|v vs IH]; intros n H; simpl in H.
  - injection H as <-. reflexivity.
  - unfold match_blocks. cbn [flat_map]. fold (match_blocks find css_class vs term).
    destruct (find (text v) term) as [ms|]; [|discriminate].
    destruct (sum_matches find vs term) as [n'|]; [|discriminate].
    injection H as <-. rewrite spans_in_app, <- (IH n' eq_refl).
    destruct ms as [|m ms]; [reflexivity|].
    unfold spans_in at 1. cbn [fold_right snd].
    rewrite count_spans_highlight. lia.
Qed.

End ReportProofs.

Section ReportStructure.

Context {U : UnicodeData}.

Lemma els_block_fold (loc_base : str) : forall els html,
  fold_left (els_block loc_base) els html
  = html ++ block_lines
      (map (fun m =>
              (loc_base ++ codes " (skip=" ++ str_of_int (skip m) ++ codes ")",
               highlight_text (cleaned m) (map (fun p => (p, 1)) (positions m))
                 (codes "highlight-els")))
           els).
Proof.
  induction els as [|m els IH]; intro html; cbn [fold_left map].
  - symmetry. apply app_nil_r.
  - rewrite IH. unfold els_block. unfold block_lines. cbn [flat_map fst snd].
    rewrite <- !app_assoc. reflexivity.
Qed.

Lemma els_section_blocks (term : str) : forall verses html,
  els_section verses term html = html ++ block_lines (els_blocks verses term).
Proof.
  induction verses as [|v vs IH]; intro html; cbn [els_section].
  - symmetry. apply app_nil_r.
  - unfold els_blocks. cbn [flat_map]. fold (els_blocks vs term).
    rewrite block_lines_app.
    destruct (find_els (text v) term default_max_skip) as [|m els] eqn:E.
    + rewrite IH. reflexivity.
    + rewrite IH, els_block_fold, <- app_assoc. reflexivity.
Qed.

Lemma sum_els_blocks (term : str) : forall verses,
  sum_els verses term = len (els_blocks verses term).
Proof.
  induction verses as [|v vs IH]; [reflexivity|].
  unfold sum_els, els_blocks in *. cbn [fold_right flat_map].
  rewrite len_app, len_map, IH. reflexivity.
Qed.

(** The lines of the report: the head with the three counts, and the three
    sections with their blocks. *)
Lemma generate_html_lines_structure (verses : list Verse) (term : str) (html : list str) :
  generate_html_lines verses term = Some html ->
  exists direct_count reverse_count,
    sum_matches find_direct verses term = Some direct_count
    /\ sum_matches find_reversed verses term = Some reverse_count
    /\ html
       = head_lines term direct_count reverse_count (sum_els verses term)
         ++ [h2_conventional]
         ++ block_lines (match_blocks find_direct (codes "highlight-direct") verses term)
         ++ [h2_reversed]
         ++ block_lines (match_blocks find_reversed (codes "highlight-reverse") verses term)
         ++ [h2_els]
         ++ block_lines (els_blocks verses term)
         ++ [codes "</body>"; codes "</html>"].
Proof.
  unfold generate_html_lines. intro H.
  destruct (sum_matches find_direct verses term) as [dc|]; [|discriminate].
  destruct (sum_matches find_reversed verses term) as [rc|]; [|discriminate].
  destruct (matches_section find_direct _ verses term _) as [h1|] eqn:E1; [|discriminate].
  destruct (matches_section find_reversed _ verses term _) as [h2|] eqn:E2; [|discriminate].
  injection H as <-.
  apply matches_section_blocks in E1, E2.
  exists dc, rc. split; [reflexivity|]. split; [reflexivity|].
  rewrite els_section_blocks, E2, E1, <- !app_assoc. reflexivity.
Qed.

Lemma generate_html_lines_total (verses : list Verse) (term : str) :
  term <> [] -> exists html, generate_html_lines verses term = Some html.
Proof.
  intro N. unfold generate_html_lines.
  destruct (sum_matches_total find_direct term verses) as [dc ->];
    [intros; apply find_direct_total, N|].
  destruct (sum_matches_total find_reversed term verses) as [rc ->];
    [intros; apply find_reversed_total, N|].
  destruct (matches_section_total find_direct (codes "highlight-direct") term verses
              (head_lines term dc rc (sum_els verses term) ++ [h2_conventional]))
    as [h1 ->]; [intros; apply find_direct_total, N|].
  destruct (matches_section_total find_reversed (codes "highlight-reverse") term verses
              (h1 ++ [h2_reversed]))
    as [h2 ->]; [intros; apply find_reversed_total, N|].
  eauto.
Qed.

End ReportStructure.

(** *** What the lines of the report show *)

Lemma string_of_codes_codes (s : string) : string_of_codes (codes s) = s.
Proof.
  induction s as [|a s IH]; [reflexivity|].
  cbn [codes string_of_codes]. rewrite N2Z.id, ascii_N_embedding, IH. reflexivity.
Qed.

(** The numeral that [str] writes denotes the integer. *)
Lemma int_of_str_of_int (n : Z) : int_of_str (str_of_int n) = Some n.
Proof.
  unfold int_of_str, str_of_int. rewrite string_of_codes_codes.
  rewrite NilZero.isi.
  - cbn [option_map]. rewrite DecimalZ.of_to. reflexivity.
  - destruct n; cbn [Z.to_int]; intro E; inversion E.
    eapply DecimalPos.Unsigned.to_uint_nonnil; eassumption.
  - destruct n; cbn [Z.to_int]; intro E; inversion E.
    eapply DecimalPos.Unsigned.to_uint_nonnil; eassumption.
Qed.

(** The markers of a marked string, with more text after it. *)
Lemma count_marked_then (text_ css_class : str) : forall ms last rest,
  count_from css_class 0 (marked text_ css_class last ms ++ rest)
  = len ms + count_from css_class 0 rest.
Proof.
  induction ms as [|[start l] ms IH]; intros last rest; cbn [marked].
  - rewrite count_plain by apply escape_html_no_lt. reflexivity.
  - rewrite <- !app_assoc. rewrite count_plain by apply escape_html_no_lt.
    rewrite count_open. rewrite count_plain by apply escape_html_no_lt.
    rewrite count_close, IH. unfold len. simpl length. lia.
Qed.

(** The p line of a highlighted paragraph has one opening marker for each
    interval. *)
Lemma count_spans_paragraph (text_ css_class : str) (ms : list (Z * Z)) :
  count_spans css_class
    (codes "<p>" ++ highlight_text text_ ms css_class ++ codes "</p>")
  = len ms.
Proof.
  unfold count_spans. rewrite highlight_text_marked.
  change (codes "<p>" ++ marked text_ css_class 0 (sorted_by_start ms) ++ codes "</p>")
    with (60 :: ([112; 62] ++ marked text_ css_class 0 (sorted_by_start ms) ++ codes "</p>")).
  rewrite count_from_0_cons.
  change (starts_with (span_open css_class)
            (60 :: [112; 62] ++ marked text_ css_class 0 (sorted_by_start ms) ++ codes "</p>"))
    with false.
  change (starts_with span_close
            (60 :: [112; 62] ++ marked text_ css_class 0 (sorted_by_start ms) ++ codes "</p>"))
    with false.
  cbv iota.
  rewrite count_plain by (repeat constructor; discriminate).
  rewrite count_marked_then, sorted_by_start_len.
  change (count_from css_class 0 (codes "</p>")) with 0. lia.
Qed.

Lemma block_lines_rendered (blocks : list (str * str)) :
  block_lines blocks = section_lines (map rendered_block blocks).
Proof.
  unfold block_lines, section_lines.
  induction blocks as [|b blocks IH]; [reflexivity|].
  cbn [flat_map map]. rewrite IH. reflexivity.
Qed.

(** The sum of the lengths is the number of markers in the p lines. *)
Lemma sum_matches_rendered {U : UnicodeData}
    (find : str -> str -> option (list (Z * Z))) (css_class term : str) :
  forall verses n,
  sum_matches find verses term = Some n ->
  n = spans_in css_class (map rendered_block (match_blocks find css_class verses term)).
Proof.
  induction verses as [|v vs IH]; intros n H; cbn [sum_matches] in H.
  - injection H as <-. reflexivity.
  - unfold match_blocks. cbn [flat_map]. fold (match_blocks find css_class vs term).
    destruct (find (text v) term) as [ms|]; [|discriminate].
    destruct (sum_matches find vs term) as [n'|]; [|discriminate].
    injection H as <-. rewrite map_app, spans_in_app, <- (IH n' eq_refl).
    destruct ms as [|m ms]; [reflexivity|].
    cbn [map]. unfold spans_in at 1. cbn [fold_right snd fst rendered_block].
    rewrite count_spans_paragraph. lia.
Qed.

(** C8.  For every verse collection and term, the report that
    [generate_html] returns has, as its nineteenth line, the navigation line
    with three decimal numerals between its parentheses.  The first denotes
    the sum over the verses of the direct matches, and it is the number of
    highlight markers in the p lines of the Conventional section; the second
    is the same for the reversed matches and the Reversed section; the third
    denotes the sum over the verses of the ELS results, and it is the number
    of blocks of the Equidistant section, one for each result.  A report is
    returned whenever the term is not empty. *)
Theorem nav_counts_equal_rendered_matches :
  forall (U : UnicodeData) (verses : list Verse) (term : str),
  (term <> [] -> exists html, generate_html_lines verses term = Some html)
  /\ (forall html, generate_html_lines verses term = Some html ->
      exists direct_count reverse_count els_count conventional reversed equidistant,
        html
        = head_lines term direct_count reverse_count els_count
          ++ [h2_conventional] ++ section_lines conventional
          ++ [h2_reversed] ++ section_lines reversed
          ++ [h2_els] ++ section_lines equidistant
          ++ [codes "</body>"; codes "</html>"]
        /\ nth 18 html []
           = codes "<a href=" ++ [34] ++ codes "#conventional" ++ [34]
             ++ codes ">Conventional Matches (" ++ str_of_int direct_count
             ++ codes ")</a> | "
             ++ codes "<a href=" ++ [34] ++ codes "#reversed" ++ [34]
             ++ codes ">Reversed Matches (" ++ str_of_int reverse_count
             ++ codes ")</a> | "
             ++ codes "<a href=" ++ [34] ++ codes "#els" ++ [34]
             ++ codes ">Equidistant Matches (" ++ str_of_int els_count
             ++ codes ")</a>"
        /\ int_of_str (str_of_int direct_count) = Some direct_count
        /\ int_of_str (str_of_int reverse_count) = Some reverse_count
        /\ int_of_str (str_of_int els_count) = Some els_count
        /\ conventional
           = map rendered_block
               (match_blocks find_direct (codes "highlight-direct") verses term)
        /\ reversed
           = map rendered_block
               (match_blocks find_reversed (codes "highlight-reverse") verses term)
        /\ equidistant = map rendered_block (els_blocks verses term)
        /\ sum_matches find_direct verses term = Some direct_count
        /\ sum_matches find_reversed verses term = Some reverse_count
        /\ els_count = sum_els verses term
        /\ direct_count = spans_in (codes "highlight-direct") conventional
        /\ reverse_count = spans_in (codes "highlight-reverse") reversed
        /\ els_count = len equidistant).
Proof.
  intros U verses term. split; [apply generate_html_lines_total|].
  intros html H. apply generate_html_lines_structure in H.
  destruct H as [dc [rc [Hd [Hr E]]]].
  exists dc, rc, (sum_els verses term),
    (map rendered_block (match_blocks find_direct (codes "highlight-direct") verses term)),
    (map rendered_block (match_blocks find_reversed (codes "highlight-reverse") verses term)),
    (map rendered_block (els_blocks verses term)).
  split; [rewrite E, !block_lines_rendered; reflexivity|].
  split.
  { rewrite E. cbn [head_lines app nth]. unfold nav_line, dq.
    rewrite <- !app_assoc. reflexivity. }
  do 3 (split; [apply int_of_str_of_int|]).
  do 3 (split; [reflexivity|]).
  split; [exact Hd|]. split; [exact Hr|]. split; [reflexivity|].
  split; [apply sum_matches_rendered, Hd|].
  split; [apply sum_matches_rendered, Hr|].
  rewrite len_map. apply sum_els_blocks.
Qed.

(** C10.  In the report, the title line and the h1 line are their fixed
    text around the term as it is, character for character, and the h3 line
    of a block is the fixed text around the book, chapter and verse of the
    verse as they are: no character of the term or of the location is
    replaced by an entity, so a term (or a book name) with [&], [<] or [>]
    has them in the markup as they are, and the lines differ from what
    escaping the term would give.  Only the verse text goes through the
    highlighter, whose output without its markers is an escaped string and
    holds no [<] and no [>]. *)
Theorem term_and_locations_not_escaped :
  forall (U : UnicodeData) (verses : list Verse) (term : str) (html : list str),
  generate_html_lines verses term = Some html ->
  nth 4 html []
  = codes "  <title>Yada Bible Word Search Report for " ++ [34] ++ term ++ [34]
    ++ codes "</title>"
  /\ nth 16 html [] = codes "<h1>Search Term: " ++ term ++ codes "</h1>"
  /\ (escape_html term <> term ->
        nth 4 html []
        <> codes "  <title>Yada Bible Word Search Report for " ++ [34] ++ escape_html term
           ++ [34] ++ codes "</title>"
        /\ nth 16 html [] <> codes "<h1>Search Term: " ++ escape_html term ++ codes "</h1>")
  /\ (forall v m ms, In v verses ->
        (find_direct (text v) term = Some (m :: ms) ->
           In (codes "<h3>" ++ book v ++ codes " " ++ chapter v ++ codes ":" ++ verse v
                ++ codes "</h3>") html
           /\ In (codes "<p>"
                    ++ highlight_text (text v) (m :: ms) (codes "highlight-direct")
                    ++ codes "</p>") html)
        /\ (find_reversed (text v) term = Some (m :: ms) ->
           In (codes "<h3>" ++ book v ++ codes " " ++ chapter v ++ codes ":" ++ verse v
                ++ codes "</h3>") html
           /\ In (codes "<p>"
                    ++ highlight_text (text v) (m :: ms) (codes "highlight-reverse")
                    ++ codes "</p>") html))
  /\ (forall v r, In v verses -> In r (find_els (text v) term default_max_skip) ->
        In (codes "<h3>" ++ book v ++ codes " " ++ chapter v ++ codes ":" ++ verse v
              ++ codes " (skip=" ++ str_of_int (skip r) ++ codes ")" ++ codes "</h3>") html
        /\ In (codes "<p>"
                 ++ highlight_text (cleaned r) (map (fun p => (p, 1)) (positions r))
                      (codes "highlight-els")
                 ++ codes "</p>") html)
  /\ (forall text_ ms css_class,
        strip_markers css_class (highlight_text text_ ms css_class)
        = escape_html (covered text_ 0 (sorted_by_start ms))
        /\ Forall (fun x => x <> 60 /\ x <> 62)
             (strip_markers css_class (highlight_text text_ ms css_class))).
Proof.
  intros U verses term html H. apply generate_html_lines_structure in H.
  destruct H as [dc [rc [Hd [Hr E]]]].
  assert (Blk : forall bs b, In b bs ->
            In (codes "<h3>" ++ fst b ++ codes "</h3>") (block_lines bs)
            /\ In (codes "<p>" ++ snd b ++ codes "</p>") (block_lines bs)).
  { intros bs b I. unfold block_lines. split; apply in_flat_map; exists b;
      (split; [exact I|]); [left | right; left]; reflexivity. }
  assert (T : nth 4 html []
              = codes "  <title>Yada Bible Word Search Report for " ++ [34] ++ term ++ [34]
                ++ codes "</title>").
  { rewrite E. cbn [head_lines app nth]. unfold title_line, dq.
    rewrite <- ?app_assoc. reflexivity. }
  assert (H1 : nth 16 html [] = codes "<h1>Search Term: " ++ term ++ codes "</h1>").
  { rewrite E. cbn [head_lines app nth]. reflexivity. }
  split; [exact T|]. split; [exact H1|].
  split.
  { intro Ne. rewrite T, H1. split; intro Eq; apply Ne; symmetry.
    - apply app_inv_head in Eq. apply app_inv_head in Eq.
      apply app_inv_tail in Eq. exact Eq.
    - apply app_inv_head in Eq. apply app_inv_tail in Eq. exact Eq. }
  split.
  { intros v m ms Iv. split; intro F.
    - destruct (Blk (match_blocks find_direct (codes "highlight-direct") verses term)
                  (loc_of v, highlight_text (text v) (m :: ms) (codes "highlight-direct")))
        as [B1 B2].
      { unfold match_blocks. apply in_flat_map. exists v. split; [exact Iv|].
        rewrite F. left. reflexivity. }
      cbn [fst snd] in B1, B2. unfold loc_of in B1. rewrite <- !app_assoc in B1.
      rewrite E. split; apply in_or_app; right; apply in_or_app; right;
        apply in_or_app; left; assumption.
    - destruct (Blk (match_blocks find_reversed (codes "highlight-reverse") verses term)
                  (loc_of v, highlight_text (text v) (m :: ms) (codes "highlight-reverse")))
        as [B1 B2].
      { unfold match_blocks. apply in_flat_map. exists v. split; [exact Iv|].
        rewrite F. left. reflexivity. }
      cbn [fst snd] in B1, B2. unfold loc_of in B1. rewrite <- !app_assoc in B1.
      rewrite E. split; do 4 (apply in_or_app; right);
        apply in_or_app; left; assumption. }
  split.
  { intros v r Iv Ir.
    destruct (Blk (els_blocks verses term)
                (loc_of v ++ codes " (skip=" ++ str_of_int (skip r) ++ codes ")",
                 highlight_text (cleaned r) (map (fun p => (p, 1)) (positions r))
                   (codes "highlight-els"))) as [B1 B2].
    { unfold els_blocks. apply in_flat_map. exists v. split; [exact Iv|].
      apply in_map_iff. exists r. auto. }
    cbn [fst snd] in B1, B2. unfold loc_of in B1. rewrite <- !app_assoc in B1.
    rewrite E. split; do 6 (apply in_or_app; right);
      apply in_or_app; left; assumption. }
  intros text_ ms css_class.
  assert (S : strip_markers css_class (highlight_text text_ ms css_class)
              = escape_html (covered text_ 0 (sorted_by_start ms)))
    by (rewrite highlight_text_marked; apply strip_marked).
  split; [exact S|]. rewrite S. apply escape_html_no_angle.
Qed.

Lemma term_and_locations_not_escaped_witness :
  let verses := [{| book := codes "R&B"; chapter := codes "1"; verse := codes "1";
                    text := codes "a <b> c" |}] in
  let term := codes "<b>" in
  exists html,
    generate_html_lines (U := latin1_fragment) verses term = Some html
    /\ nth 4 html []
       = codes "  <title>Yada Bible Word Search Report for " ++ [34] ++ codes "<b>" ++ [34]
         ++ codes "</title>"
    /\ nth 16 html [] = codes "<h1>Search Term: <b></h1>"
    /\ nth 16 html [] <> codes "<h1>Search Term: &lt;b&gt;</h1>"
    /\ In (codes "<h3>R&B 1:1</h3>") html
    /\ In (codes "<p>a <span class=" ++ [34] ++ codes "highlight-direct" ++ [34]
             ++ codes ">&lt;b&gt;</span> c</p>") html.
Proof.
  intros verses term.
  destruct (generate_html_lines (U := latin1_fragment) verses term) as [html|] eqn:E;
    [|vm_compute in E; discriminate E].
  exists html. split; [reflexivity|].
  pose proof (term_and_locations_not_escaped latin1_fragment verses term html E)
    as (T & H1 & Ne & B & _).
  split; [exact T|]. split; [exact H1|].
  split; [apply Ne; discriminate|].
  destruct (B (hd {| book := []; chapter := []; verse := []; text := [] |} verses)
              (2, 3) [] (or_introl eq_refl)) as [D _].
  split; apply (D eq_refl).
Defined.

(** The h1 line of the report for the term <b>. *)
Example raw_term_in_heading :
  h1_line (codes "<b>") = codes "<h1>Search Term: <b></h1>"
  /\ escape_html (codes "<b>") = codes "&lt;b&gt;".
Proof. split; reflexivity. Qed.

(** The scenario of the specification: in Genesis 1:1 the term GOD has one
    direct match, at the word God, no reversed match, and the ELS search
    finds it at skip 1. *)
Example genesis_1_1_scenario :
  let line := codes "Genesis 1:1 In the beginning God created the heaven and the earth."
              ++ [10] in
  exists v,
    load_bible (U := latin1_fragment) [line] = [v]
    /\ find_direct (text v) (codes "GOD") = Some [(17, 3)]
    /\ py_slice (text v) 17 (17 + 3) = codes "God"
    /\ find_reversed (text v) (codes "GOD") = Some []
    /\ In {| skip := 1; positions := [14; 15; 16];
             cleaned := codes "InthebeginningGodcreatedtheheavenandtheearth" |}
          (find_els (text v) (codes "GOD") default_max_skip).
Proof.
  intro line. eexists. split; [vm_compute; reflexivity|].
  repeat split; try reflexivity. vm_compute. left. reflexivity.
Qed.

(** * Further properties of the code *)

(** ** The ELS matcher: nothing is missed *)

Section ElsComplete.

Context {U : UnicodeData}.

Variables (cleaned_ cu tu : str) (length_ n : Z).

(** The [break] of the inner loop loses no hit: the last sampled index
    grows with the start, so once it is outside, it stays outside. *)
Lemma els_starts_complete (skip_ : Z) : forall starts s,
  StronglySorted Z.lt starts ->
  In s starts ->
  reported cu tu length_ n skip_ s ->
  In (els_result_of cleaned_ length_ skip_ s)
     (els_starts cleaned_ cu tu length_ n skip_ starts []).
Proof.
  induction starts as [|start rest IH]; intros s Hs I [He Hq]; [contradiction|].
  apply StronglySorted_inv in Hs. destruct Hs as [Hs' Hlt].
  cbn [els_starts].
  assert (Hstart : start + (length_ - 1) * skip_ < n).
  { destruct I as [->|I]; [exact He|].
    rewrite Forall_forall in Hlt. specialize (Hlt _ I). lia. }
  destruct (Z.geb_spec (start + (length_ - 1) * skip_) n) as [G|_]; [lia|].
  destruct I as [->|I].
  - assert (Q : str_eqb (map (fun i => char_at cu (s + i * skip_)) (py_range 0 length_)) tu
                = true) by (apply str_eqb_eq; exact Hq).
    rewrite Q, els_starts_acc. apply in_or_app. left. left. reflexivity.
  - pose proof (IH s Hs' I (conj He Hq)) as R.
    destruct (str_eqb _ tu); [|exact R].
    rewrite els_starts_acc. apply in_or_app. right. exact R.
Qed.

(** The inner loop adds at most one result for each start. *)
Lemma els_starts_count (skip_ : Z) : forall starts results,
  len (els_starts cleaned_ cu tu length_ n skip_ starts results)
  <= len results + len starts.
Proof.
  induction starts as [|start rest IH]; intro results; cbn [els_starts].
  - unfold len. simpl. lia.
  - assert (L : len (start :: rest) = 1 + len rest) by (unfold len; simpl length; lia).
    pose proof (len_nonneg rest).
    destruct (_ >=? n); [lia|].
    destruct (str_eqb _ tu).
    + specialize (IH (results ++ [els_result_of cleaned_ length_ skip_ start])).
      rewrite len_app in IH. change (len [_]) with 1 in IH.
      unfold els_result_of in IH. lia.
    + specialize (IH results). lia.
Qed.

End ElsComplete.

Section ElsExtras.

Context {U : UnicodeData}.

Lemma find_els_flat_map (text_ term : str) (max_skip : Z) :
  let cleaned_ := filter is_ascii_letter text_ in
  find_els text_ term max_skip
  = flat_map
      (fun skip_ =>
         els_starts cleaned_ (upper cleaned_) (upper term) (len (upper term))
           (len cleaned_) skip_ (py_range 0 (len cleaned_)) [])
      (py_range 1 (max_skip + 1)).
Proof.
  intro cleaned_. unfold find_els. fold cleaned_.
  assert (Hn : len (upper cleaned_) = len cleaned_)
    by (apply upper_len_single, single_upper_ascii, cleaned_ascii).
  rewrite Hn, els_fold_acc. reflexivity.
Qed.

Lemma len_flat_map_bound {A B} (f : A -> list B) (m : Z) (l : list A) :
  (forall x, len (f x) <= m) -> len (flat_map f l) <= len l * m.
Proof.
  intro H. induction l as [|x l IH]; [unfold len; simpl; lia|].
  cbn [flat_map]. rewrite len_app.
  replace (len (x :: l)) with (1 + len l) by (unfold len; simpl length; lia).
  specialize (H x). lia.
Qed.

End ElsExtras.

(** X1.  The ELS matcher misses nothing: for every skip from 1 to the
    bound and every start whose last sampled index is inside the cleaned
    letters, if the sampled letters, uppercased, are the uppercased term,
    then the result for that skip and start is in the list. *)
Theorem find_els_reports_every_hit :
  forall (U : UnicodeData) (text_ term : str) (max_skip skip_ start : Z),
  let cleaned_ := filter is_ascii_letter text_ in
  let length_ := len (upper term) in
  1 <= skip_ <= max_skip ->
  0 <= start < len cleaned_ ->
  start + (length_ - 1) * skip_ < len cleaned_ ->
  map (fun i => char_at (upper cleaned_) (start + i * skip_)) (py_range 0 length_)
  = upper term ->
  In (els_result_of cleaned_ length_ skip_ start) (find_els text_ term max_skip).
Proof.
  intros U text_ term max_skip skip_ start cleaned_ length_ Hk Hs He Hq.
  subst cleaned_ length_.
  rewrite find_els_flat_map. cbv zeta. apply in_flat_map. exists skip_.
  split; [apply in_py_range; lia|].
  apply els_starts_complete.
  - apply py_range_sorted.
  - apply in_py_range. lia.
  - split; assumption.
Qed.

Lemma find_els_reports_every_hit_witness :
  1 <= 3 <= 50
  /\ 0 <= 1 < len (filter is_ascii_letter (codes "xGabOcdD!"))
  /\ 1 + (len (upper (U := latin1_fragment) (codes "god")) - 1) * 3
     < len (filter is_ascii_letter (codes "xGabOcdD!"))
  /\ In (els_result_of (filter is_ascii_letter (codes "xGabOcdD!"))
           (len (upper (codes "god"))) 3 1)
        (find_els (U := latin1_fragment) (codes "xGabOcdD!") (codes "god") 50).
Proof.
  assert (A : 1 <= 3 <= 50) by lia.
  assert (B : 0 <= 1 < len (filter is_ascii_letter (codes "xGabOcdD!")))
    by (vm_compute; split; [discriminate | reflexivity]).
  assert (C : 1 + (len (upper (U := latin1_fragment) (codes "god")) - 1) * 3
              < len (filter is_ascii_letter (codes "xGabOcdD!")))
    by (vm_compute; reflexivity).
  split; [exact A|]. split; [exact B|]. split; [exact C|].
  exact (find_els_reports_every_hit latin1_fragment (codes "xGabOcdD!") (codes "god")
           50 3 1 A B C eq_refl).
Defined.

(** X2.  The ELS matcher returns no result when the verse has no letter,
    when the uppercased term is longer than the cleaned letters, or when the
    bound on the skip is below 1. *)
Theorem find_els_empty_results :
  forall (U : UnicodeData) (text_ term : str) (max_skip : Z),
  filter is_ascii_letter text_ = []
  \/ len (filter is_ascii_letter text_) < len (upper term)
  \/ max_skip < 1 ->
  find_els text_ term max_skip = [].
Proof.
  intros U text_ term max_skip H.
  destruct (find_els_hits text_ term max_skip) as [hits [E [_ F]]].
  rewrite E. destruct hits as [|[k s] hits]; [reflexivity|]. exfalso.
  inversion F as [|? ? [A [B [C _]]] _]; subst. simpl in A, B, C.
  pose proof (len_nonneg (upper term)) as L0.
  destruct H as [H | [H | H]].
  - rewrite H in B. change (len (@nil Z)) with 0 in B. lia.
  - nia.
  - lia.
Qed.

Lemma find_els_empty_results_witness :
  (filter is_ascii_letter (codes "In God") = []
   \/ len (filter is_ascii_letter (codes "In God"))
      < len (upper (U := latin1_fragment) (codes "beginning"))
   \/ 50 < 1)
  /\ find_els (U := latin1_fragment) (codes "In God") (codes "beginning") 50 = [].
Proof.
  assert (H : filter is_ascii_letter (codes "In God") = []
              \/ len (filter is_ascii_letter (codes "In God"))
                 < len (upper (U := latin1_fragment) (codes "beginning"))
              \/ 50 < 1)
    by (right; left; vm_compute; reflexivity).
  split; [exact H|].
  exact (find_els_empty_results latin1_fragment (codes "In God") (codes "beginning") 50 H).
Defined.

(** X3.  The ELS matcher returns at most one result for each pair of a
    skip from 1 to the bound and a start in the cleaned letters: the list
    has at most [max_skip * len(cleaned)] entries. *)
Theorem find_els_count_bound :
  forall (U : UnicodeData) (text_ term : str) (max_skip : Z),
  len (find_els text_ term max_skip)
  <= Z.max 0 max_skip * len (filter is_ascii_letter text_).
Proof.
  intros U text_ term max_skip. rewrite find_els_flat_map. cbv zeta.
  set (cleaned_ := filter is_ascii_letter text_).
  pose proof (len_nonneg cleaned_) as N.
  replace (Z.max 0 max_skip) with (len (py_range 1 (max_skip + 1))).
  - apply len_flat_map_bound. intro k.
    pose proof (els_starts_count cleaned_ (upper cleaned_) (upper term)
                  (len (upper term)) (len cleaned_) k (py_range 0 (len cleaned_)) []) as B.
    rewrite len_py_range in B by lia. change (len (@nil els_result)) with 0 in B. lia.
  - unfold len, py_range. rewrite length_map, length_seq. lia.
Qed.

Lemma len_flat_map_exact {A B} (f : A -> list B) (m : Z) (l : list A) :
  (forall x, In x l -> len (f x) = m) -> len (flat_map f l) = len l * m.
Proof.
  induction l as [|x l IH]; intro H; [reflexivity|].
  cbn [flat_map]. rewrite len_app, (H x) by (left; reflexivity).
  rewrite IH by (intros y Hy; apply H; right; exact Hy).
  replace (len (x :: l)) with (1 + len l) by (unfold len; simpl length; lia).
  lia.
Qed.

(** With the empty term, every start below [n] passes the test of the
    inner loop. *)
Lemma els_starts_empty_term (cleaned_ cu : str) (n skip_ : Z) :
  1 <= skip_ ->
  forall starts results,
  Forall (fun s => s < n) starts ->
  els_starts cleaned_ cu [] 0 n skip_ starts results
  = results ++ map (els_result_of cleaned_ 0 skip_) starts.
Proof.
  intros Hk. induction starts as [|start rest IH]; intros results F.
  - symmetry. apply app_nil_r.
  - inversion F as [|? ? Hs Hr]; subst. cbn [els_starts map].
    destruct (Z.geb_spec (start + (0 - 1) * skip_) n) as [G|_]; [lia|].
    change (str_eqb (map (fun i => char_at cu (start + i * skip_)) (py_range 0 0)) [])
      with true.
    cbv iota. rewrite IH by exact Hr. rewrite <- app_assoc. reflexivity.
Qed.

(** X4.  With the empty term the ELS matcher passes every start at every
    skip: it returns [max_skip * len(cleaned)] results, each with an empty
    list of positions. *)
Theorem find_els_empty_term_floods :
  forall (U : UnicodeData) (text_ : str) (max_skip : Z),
  len (find_els text_ [] max_skip)
  = Z.max 0 max_skip * len (filter is_ascii_letter text_)
  /\ Forall (fun r => positions r = []) (find_els text_ [] max_skip).
Proof.
  intros U text_ max_skip. split.
  - rewrite find_els_flat_map. cbv zeta.
    set (cleaned_ := filter is_ascii_letter text_).
    change (upper []) with (@nil Z). change (len (@nil Z)) with 0.
    rewrite (len_flat_map_exact _ (len cleaned_)).
    + f_equal. unfold len, py_range. rewrite length_map, length_seq. lia.
    + intros k Hk. apply in_py_range in Hk.
      rewrite els_starts_empty_term.
      * cbn [app]. rewrite len_map, len_py_range by apply len_nonneg. lia.
      * lia.
      * apply Forall_forall. intros s Hs. apply in_py_range in Hs. lia.
  - destruct (find_els_hits text_ [] max_skip) as [hits [E _]].
    rewrite E. apply Forall_map, Forall_forall. intros h _. reflexivity.
Qed.

(** ** The matchers and the highlighter together *)

Lemma StronglySorted_ForallOrdPairs {A} (R R' : A -> A -> Prop) (l : list A) :
  (forall a b, R a b -> R' a b) -> StronglySorted R l -> ForallOrdPairs R' l.
Proof.
  intro H. induction 1 as [|x l _ IH F]; constructor; [|exact IH].
  eapply Forall_impl; [|exact F]. intro b. apply H.
Qed.

(** What stripping and un-escaping give back, for intervals inside the
    string that do not overlap. *)
Lemma highlight_strip_unescape (text_ css_class : str) (ms : list (Z * Z)) :
  Forall (in_bounds text_) ms ->
  non_overlapping ms ->
  unescape_html (strip_markers css_class (highlight_text text_ ms css_class)) = text_.
Proof.
  intros Hb Hn.
  rewrite highlight_text_marked, strip_marked, covered_all.
  - rewrite py_slice_from_0. apply unescape_escape.
  - lia.
  - apply sorted_non_overlapping_ordered.
    + apply sorted_by_start_sorted.
    + apply sorted_by_start_non_overlapping, Hn.
    + apply sorted_by_start_Forall. eapply Forall_impl; [|exact Hb].
      intros m H. apply H.
  - apply sorted_by_start_Forall, Hb.
  - apply sorted_by_start_Forall. eapply Forall_impl; [|exact Hb].
    intros m H. apply H.
Qed.

(** One-letter intervals at increasing positions do not overlap. *)
Lemma unit_intervals_non_overlapping (ps : list Z) :
  StronglySorted Z.lt ps -> non_overlapping (map (fun p => (p, 1)) ps).
Proof.
  intro H. unfold non_overlapping.
  apply StronglySorted_ForallOrdPairs with (R := fun a b => fst a + snd a <= fst b).
  - intros a b L. left. exact L.
  - apply StronglySorted_map.
    eapply StronglySorted_impl; [|exact H].
    intros x y L. simpl. lia.
Qed.

Lemma hit_positions_sorted (length_ k s : Z) :
  1 <= k ->
  StronglySorted Z.lt (map (fun i => s + i * k) (py_range 0 length_)).
Proof.
  intro Hk. apply StronglySorted_map.
  eapply StronglySorted_impl; [|apply py_range_sorted].
  intros i j L. simpl. nia.
Qed.

(** X5.  Every ELS result can be rendered as [generate_html] renders it:
    its positions, taken as one-letter intervals, lie inside [cleaned] and
    do not overlap, so the highlighted paragraph, with its markers stripped
    and its entities un-escaped, is [cleaned] again, and it carries one
    marker for each character of the uppercased term. *)
Theorem els_paragraph_round_trip :
  forall (U : UnicodeData) (text_ term css_class : str) (max_skip : Z) (r : els_result),
  In r (find_els text_ term max_skip) ->
  let highlights := map (fun p => (p, 1)) (positions r) in
  Forall (in_bounds (cleaned r)) highlights
  /\ non_overlapping highlights
  /\ unescape_html (strip_markers css_class (highlight_text (cleaned r) highlights css_class))
     = cleaned r
  /\ count_spans css_class (highlight_text (cleaned r) highlights css_class)
     = len (upper term).
Proof.
  intros U text_ term css_class max_skip r H highlights.
  destruct (find_els_hits text_ term max_skip) as [hits [E [_ F]]].
  rewrite E in H. apply in_map_iff in H. destruct H as [[k s] [<- I]].
  rewrite Forall_forall in F. destruct (F _ I) as [A [B [C _]]].
  simpl in A, B, C. subst highlights. cbn [cleaned positions els_result_of].
  set (cleaned_ := filter is_ascii_letter text_) in *.
  set (ps := map (fun i => s + i * k) (py_range 0 (len (upper term)))).
  assert (Hb : Forall (in_bounds cleaned_) (map (fun p => (p, 1)) ps)).
  { apply Forall_map.
    pose proof (hit_positions_valid (len (upper term)) (len cleaned_) k s
                  ltac:(lia) ltac:(lia) C) as V.
    eapply Forall_impl; [|exact V].
    intros p Hp. unfold in_bounds. cbn [fst snd]. cbv beta in Hp. lia. }
  assert (Hn : non_overlapping (map (fun p => (p, 1)) ps)).
  { apply unit_intervals_non_overlapping, hit_positions_sorted. lia. }
  split; [exact Hb|]. split; [exact Hn|]. split.
  - apply highlight_strip_unescape; assumption.
  - rewrite count_spans_highlight. unfold ps.
    rewrite !len_map, len_py_range by apply len_nonneg. lia.
Qed.

Lemma els_paragraph_round_trip_witness :
  let r := {| skip := 2; positions := [0; 2; 4]; cleaned := codes "GaObDc" |} in
  let highlights := map (fun p => (p, 1)) (positions r) in
  In r (find_els (U := latin1_fragment) (codes "Ga Ob, Dc") (codes "god") 50)
  /\ Forall (in_bounds (cleaned r)) highlights
  /\ non_overlapping highlights
  /\ unescape_html
       (strip_markers (codes "highlight-els")
          (highlight_text (cleaned r) highlights (codes "highlight-els")))
     = cleaned r
  /\ count_spans (codes "highlight-els")
       (highlight_text (cleaned r) highlights (codes "highlight-els"))
     = len (upper (codes "god")).
Proof.
  intros r highlights.
  assert (H : In r (find_els (U := latin1_fragment) (codes "Ga Ob, Dc") (codes "god") 50))
    by (vm_compute; left; reflexivity).
  split; [exact H|].
  exact (els_paragraph_round_trip latin1_fragment (codes "Ga Ob, Dc") (codes "god")
           (codes "highlight-els") 50 r H).
Defined.

Section MatchParagraphs.

Context {U : UnicodeData}.

(** The intervals of a leftmost-first scan for a needle that is not empty
    are match intervals of the original text, when uppercasing keeps every
    character of the text in its place. *)
Lemma leftmost_scan_intervals (text_ needle : str) (ms : list (Z * Z)) :
  single_upper text_ -> needle <> [] ->
  leftmost_scan (upper text_) needle 0 ms ->
  Forall (in_bounds text_) ms /\ non_overlapping ms.
Proof.
  intros Hs Hn L. split.
  - pose proof (leftmost_scan_Forall _ _ _ _ L) as F.
    eapply Forall_impl; [|exact F].
    intros [st l] [A [B O]]. cbn [fst snd] in *.
    pose proof (occurs_at_fits _ _ _ O) as Fit.
    rewrite upper_len_single in Fit by exact Hs.
    pose proof (len_pos _ Hn). unfold in_bounds. cbn [fst snd]. lia.
  - unfold non_overlapping.
    apply StronglySorted_ForallOrdPairs with (R := fun a b => fst a + snd a <= fst b).
    + intros a b H. left. exact H.
    + eapply leftmost_scan_ordered. exact L.
Qed.

Lemma scan_needle_nonempty (text_u needle : str) (fuel : nat) (ms : list (Z * Z)) :
  scan_loop fuel text_u needle (scan_start text_u needle) = Some ms -> needle <> [].
Proof.
  intros H E. subst needle. rewrite scan_from_start_empty in H. discriminate.
Qed.

End MatchParagraphs.

(** X6.  For a verse text in which each character uppercases to one
    character (every ASCII text), the list that the direct matcher returns,
    and the list that the reversed matcher returns, are match intervals of
    the text that do not overlap; the paragraph that [generate_html] builds
    from them with [highlight_text], with its markers stripped and its
    entities un-escaped, is the verse text. *)
Theorem match_paragraph_round_trip :
  forall (U : UnicodeData) (text_ term css_class : str),
  single_upper text_ ->
  (forall fuel ms, find_direct_fuel fuel text_ term = Some ms ->
     Forall (in_bounds text_) ms /\ non_overlapping ms
     /\ unescape_html (strip_markers css_class (highlight_text text_ ms css_class)) = text_)
  /\ (forall fuel ms, find_reversed_fuel fuel text_ term = Some ms ->
     Forall (in_bounds text_) ms /\ non_overlapping ms
     /\ unescape_html (strip_markers css_class (highlight_text text_ ms css_class)) = text_).
Proof.
  intros U text_ term css_class Hs. split; intros fuel ms H.
  - pose proof (scan_needle_nonempty _ _ _ _ H) as N.
    apply find_direct_fuel_sound in H. destruct H as [L _].
    destruct (leftmost_scan_intervals _ _ _ Hs N L) as [B O].
    split; [exact B|]. split; [exact O|].
    apply highlight_strip_unescape; assumption.
  - pose proof (scan_needle_nonempty _ _ _ _ H) as N.
    apply find_reversed_fuel_sound in H. destruct H as [L _].
    destruct (leftmost_scan_intervals _ _ _ Hs N L) as [B O].
    split; [exact B|]. split; [exact O|].
    apply highlight_strip_unescape; assumption.
Qed.

Lemma match_paragraph_round_trip_witness :
  single_upper (U := latin1_fragment) (codes "God & dog <3")
  /\ (forall fuel ms,
        find_direct_fuel (U := latin1_fragment) fuel (codes "God & dog <3") (codes "god")
        = Some ms ->
        Forall (in_bounds (codes "God & dog <3")) ms /\ non_overlapping ms
        /\ unescape_html
             (strip_markers (codes "highlight-direct")
                (highlight_text (codes "God & dog <3") ms (codes "highlight-direct")))
           = codes "God & dog <3")
  /\ (forall fuel ms,
        find_reversed_fuel (U := latin1_fragment) fuel (codes "God & dog <3") (codes "god")
        = Some ms ->
        Forall (in_bounds (codes "God & dog <3")) ms /\ non_overlapping ms
        /\ unescape_html
             (strip_markers (codes "highlight-direct")
                (highlight_text (codes "God & dog <3") ms (codes "highlight-direct")))
           = codes "God & dog <3").
Proof.
  assert (H : single_upper (U := latin1_fragment) (codes "God & dog <3"))
    by (repeat constructor).
  split; [exact H|].
  exact (match_paragraph_round_trip latin1_fragment (codes "God & dog <3") (codes "god")
           (codes "highlight-direct") H).
Defined.

(** X7.  [generate_html] returns a report exactly when the term is not
    empty or the verse collection is empty: with the empty term and at least
    one verse, the first count already runs a scan loop that does not
    exit. *)
Theorem generate_html_returns_iff :
  forall (U : UnicodeData) (verses : list Verse) (term : str),
  (exists html, generate_html verses term = Some html)
  <-> (term <> [] \/ verses = []).
Proof.
  intros U verses term. unfold generate_html. split.
  - intros [html H].
    destruct term as [|c term]; [|left; discriminate].
    destruct verses as [|v vs]; [right; reflexivity|]. exfalso.
    unfold generate_html_lines in H. cbn [sum_matches] in H.
    unfold find_direct, find_direct_fuel in H.
    change (upper []) with (@nil Z) in H.
    rewrite scan_from_start_empty in H. discriminate.
  - intros [N | ->].
    + destruct (generate_html_lines_total verses term N) as [html ->].
      eexists. reflexivity.
    + eexists. reflexivity.
Qed.

(** ** escape_html *)

Lemma esc_char_plain (c : Z) :
  c <> 38 -> c <> 60 -> c <> 62 -> esc_char c = [c].
Proof.
  intros A B C. unfold esc_char.
  destruct (Z.eqb_spec c 38); [congruence|].
  destruct (Z.eqb_spec c 60); [congruence|].
  destruct (Z.eqb_spec c 62); [congruence|]. reflexivity.
Qed.

Lemma esc_char_length (c : Z) :
  (1 <= length (esc_char c))%nat
  /\ (length (esc_char c) = 1%nat -> c <> 38 /\ c <> 60 /\ c <> 62).
Proof.
  unfold esc_char.
  destruct (Z.eqb_spec c 38); [simpl; split; [lia | discriminate]|].
  destruct (Z.eqb_spec c 60); [simpl; split; [lia | discriminate]|].
  destruct (Z.eqb_spec c 62); [simpl; split; [lia | discriminate]|].
  simpl. split; [lia | auto].
Qed.

Lemma escape_html_length (s : str) : (length s <= length (escape_html s))%nat.
Proof.
  rewrite escape_html_chars. induction s as [|c s IH]; simpl; [lia|].
  rewrite length_app. pose proof (proj1 (esc_char_length c)). lia.
Qed.

Lemma escape_html_plain (s : str) :
  Forall (fun c => c <> 38 /\ c <> 60 /\ c <> 62) s -> escape_html s = s.
Proof.
  rewrite escape_html_chars. induction 1 as [|c s [A [B C]] _ IH]; [reflexivity|].
  simpl. rewrite IH, esc_char_plain by assumption. reflexivity.
Qed.

(** X8.  [escape_html] loses nothing: two strings with the same escaped
    form are the same string.  It never shortens a string, and it leaves a
    string unchanged exactly when the string has none of the characters
    [&], [<] and [>]. *)
Theorem escape_html_injective :
  forall (a b s : str),
  (escape_html a = escape_html b -> a = b)
  /\ len s <= len (escape_html s)
  /\ (escape_html s = s <-> Forall (fun c => c <> 38 /\ c <> 60 /\ c <> 62) s).
Proof.
  intros a b s. split; [|split].
  - intro H. rewrite <- (unescape_escape a), <- (unescape_escape b), H. reflexivity.
  - unfold len. pose proof (escape_html_length s). lia.
  - split; [|apply escape_html_plain].
    intro H. assert (L : length (escape_html s) = length s) by (rewrite H; reflexivity).
    clear H. rewrite escape_html_chars in L.
    induction s as [|c s IH]; [constructor|].
    simpl in L. rewrite length_app in L.
    pose proof (esc_char_length c) as [L1 L2].
    pose proof (escape_html_length s) as L3. rewrite escape_html_chars in L3.
    constructor; [apply L2; lia | apply IH; lia].
Qed.

(** ** Locations of parsed verses *)

Section Locations.

Context {U : UnicodeData}.

Lemma re_classes_not_markup (c : Z) :
  re_space c = true \/ re_word c = true \/ re_digit c = true ->
  c <> 38 /\ c <> 60 /\ c <> 62.
Proof.
  intros H. repeat split; intro E; subst c; destruct H as [H | [H | H]];
    vm_compute in H; discriminate H.
Qed.

Lemma class_string_not_markup (p : Z -> bool) (s : str) :
  (forall c, p c = true -> c <> 38 /\ c <> 60 /\ c <> 62) ->
  forallb p s = true ->
  Forall (fun c => c <> 38 /\ c <> 60 /\ c <> 62) s.
Proof.
  intros Hp H. apply Forall_forall. intros c I. apply Hp.
  rewrite forallb_forall in H. apply H, I.
Qed.

End Locations.

(** X9.  The location label of a verse parsed by [load_bible], which
    [generate_html] writes into the h3 headings without escaping, holds none
    of the characters [&], [<] and [>]: escaping it would change nothing. *)
Theorem parsed_locations_need_no_escaping :
  forall (U : UnicodeData) (lines : list str) (v : Verse),
  In v (load_bible lines) ->
  Forall (fun c => c <> 38 /\ c <> 60 /\ c <> 62) (loc_of v)
  /\ escape_html (loc_of v) = loc_of v.
Proof.
  intros U lines v H. apply in_load_bible in H. destruct H as [line [_ H]].
  apply parse_line_sound in H.
  destruct H as (num & sp1 & word & sp2 & sp3 & tail & _ & Hb & Hnum & Hsp1 & _ & Hw
                 & _ & _ & [_ Hc] & [_ Hv] & _).
  assert (P : Forall (fun c => c <> 38 /\ c <> 60 /\ c <> 62) (loc_of v)).
  { assert (Lit : forall c, c = 32 \/ c = 58 -> c <> 38 /\ c <> 60 /\ c <> 62)
      by (intros c [-> | ->]; repeat split; discriminate).
    unfold loc_of. rewrite Hb.
    apply Forall_app. split.
    { apply Forall_app. split; [|apply Forall_app; split].
      - destruct Hnum as [->|[d [-> Hd]]]; [constructor|].
        constructor; [|constructor]. repeat split; lia.
      - apply (class_string_not_markup re_space); [|exact Hsp1].
        intros c E. apply re_classes_not_markup. left. exact E.
      - apply (class_string_not_markup re_word); [|exact Hw].
        intros c E. apply re_classes_not_markup. right. left. exact E. }
    apply Forall_app. split.
    { constructor; [apply Lit; left; reflexivity | constructor]. }
    apply Forall_app. split.
    { apply (class_string_not_markup re_digit); [|exact Hc].
      intros c E. apply re_classes_not_markup. right. right. exact E. }
    apply Forall_app. split.
    { constructor; [apply Lit; right; reflexivity | constructor]. }
    apply (class_string_not_markup re_digit); [|exact Hv].
    intros c E. apply re_classes_not_markup. right. right. exact E. }
  split; [exact P | apply escape_html_plain, P].
Qed.

Lemma parsed_locations_need_no_escaping_witness :
  let v := {| book := codes "1 Samuel"; chapter := codes "3"; verse := codes "10";
              text := codes "Speak; for thy servant heareth." |} in
  In v (load_bible (U := latin1_fragment)
          [codes "1 Samuel 3:10 Speak; for thy servant heareth." ++ [10]])
  /\ Forall (fun c => c <> 38 /\ c <> 60 /\ c <> 62) (loc_of v)
  /\ escape_html (loc_of v) = loc_of v.
Proof.
  intro v.
  assert (H : In v (load_bible (U := latin1_fragment)
                      [codes "1 Samuel 3:10 Speak; for thy servant heareth." ++ [10]]))
    by (vm_compute; left; reflexivity).
  split; [exact H|].
  exact (parsed_locations_need_no_escaping latin1_fragment _ v H).
Defined.

(** ** Lines that the parser drops *)

Section DroppedLines.

Context {U : UnicodeData}.

Lemma is_ascii_letter_range (x : Z) :
  is_ascii_letter x = true -> 65 <= x <= 90 \/ 97 <= x <= 122.
Proof.
  unfold is_ascii_letter. rewrite orb_true_iff, !andb_true_iff, !Z.leb_le. tauto.
Qed.

Lemma ascii_isspace_range (y : Z) :
  ascii_isspace y = true -> 9 <= y <= 13 \/ 28 <= y <= 31 \/ y = 32.
Proof.
  unfold ascii_isspace.
  rewrite !orb_true_iff, !andb_true_iff, !Z.leb_le, Z.eqb_eq. tauto.
Qed.

Lemma ascii_isdigit_range (d : Z) : ascii_isdigit d = true -> 48 <= d <= 57.
Proof.
  unfold ascii_isdigit. rewrite andb_true_iff, !Z.leb_le. tauto.
Qed.

Lemma ascii_isword_range (y : Z) :
  ascii_isword y = true -> 65 <= y <= 90 \/ 97 <= y <= 122 \/ 48 <= y <= 57 \/ y = 95.
Proof.
  unfold ascii_isword. rewrite !orb_true_iff, Z.eqb_eq.
  intros [[H | H] | H].
  - apply is_ascii_letter_range in H. tauto.
  - apply ascii_isdigit_range in H. tauto.
  - tauto.
Qed.

Lemma letter_classes (x : Z) :
  is_ascii_letter x = true ->
  re_space x = false /\ re_digit x = false /\ ~ (49 <= x <= 51).
Proof.
  intro H. pose proof (ascii_letter_is_ascii x H) as A.
  apply is_ascii_letter_range in H.
  unfold re_space, re_digit. rewrite A. split; [|split].
  - destruct (ascii_isspace x) eqn:E; [|reflexivity].
    apply ascii_isspace_range in E. lia.
  - destruct (ascii_isdigit x) eqn:E; [|reflexivity].
    apply ascii_isdigit_range in E. lia.
  - lia.
Qed.

Lemma space_classes (y : Z) :
  is_ascii y = true -> ascii_isspace y = true ->
  re_word y = false /\ re_digit y = false.
Proof.
  intros A H. apply ascii_isspace_range in H.
  unfold re_word, re_digit. rewrite A. split.
  - destruct (ascii_isword y) eqn:E; [|reflexivity].
    apply ascii_isword_range in E. lia.
  - destruct (ascii_isdigit y) eqn:E; [|reflexivity].
    apply ascii_isdigit_range in E. lia.
Qed.

Lemma forallb_head (p : Z -> bool) (y : Z) (l : str) :
  forallb p (y :: l) = true -> p y = true.
Proof. simpl. intro H. apply andb_prop in H. apply H. Qed.

Lemma forallb_app_head (p : Z -> bool) (a : str) (y : Z) (l : str) :
  forallb p (a ++ y :: l) = true -> p y = true.
Proof.
  rewrite forallb_app. intro H. apply andb_prop in H. destruct H as [_ H].
  apply forallb_head in H. exact H.
Qed.

(** A line that begins with a word of letters, whitespace and another
    letter has no match: after the book word the pattern wants the chapter
    number. *)
Lemma two_words_no_match (w sp : str) (c : Z) (rest : str) :
  w <> [] -> Forall (fun x => is_ascii_letter x = true) w ->
  sp <> [] -> Forall (fun y => is_ascii y = true /\ ascii_isspace y = true) sp ->
  is_ascii_letter c = true ->
  pattern_match (w ++ sp ++ c :: rest) = None.
Proof.
  intros Hw0 Hw Hs0 Hs Hc.
  destruct (pattern_match (w ++ sp ++ c :: rest)) as [m|] eqn:M; [exfalso|reflexivity].
  apply pattern_match_sound in M.
  destruct M as (num & sp1 & word & sp2 & ch & vs & sp3 & txt & tail & E & Hnum & Hsp1
                 & Hword0 & Hword & Hsp20 & Hsp2 & Hch0 & Hch & _).
  destruct w as [|x w]; [congruence|].
  pose proof (Forall_inv Hw) as Hx.
  destruct (letter_classes x Hx) as [Xs [Xd Xn]].
  destruct (letter_classes c Hc) as [Cs [Cd _]].
  (* no numeral, no leading whitespace *)
  assert (num = []) as ->.
  { destruct Hnum as [->|[d [-> Hd]]]; [reflexivity|].
    simpl in E. injection E as E _. subst d. contradiction. }
  assert (sp1 = []) as ->.
  { destruct sp1 as [|y sp1]; [reflexivity|].
    simpl in E. injection E as E _. subst y.
    apply forallb_head in Hsp1. congruence. }
  cbn [app] in E.
  (* the word is the first word *)
  assert (E2 : sp ++ c :: rest = sp2 ++ ch ++ [58] ++ vs ++ sp3 ++ txt ++ tail).
  { change (x :: w ++ sp ++ c :: rest) with ((x :: w) ++ sp ++ c :: rest) in E.
    apply app_eq_app in E. destruct E as [l [[E1 E2] | [E1 E2]]].
    - destruct l as [|y l].
      + rewrite app_nil_r in E1. cbn [app] in E2. symmetry. exact E2.
      + exfalso. destruct sp2 as [|z sp2]; [congruence|].
        cbn [app] in E2. injection E2 as E2 _. subst z.
        apply forallb_head in Hsp2.
        assert (I : In y (x :: w)) by (rewrite E1; apply in_or_app; right; left; reflexivity).
        rewrite Forall_forall in Hw. apply Hw in I.
        destruct (letter_classes y I) as [Ys _]. congruence.
    - destruct l as [|y l].
      + cbn [app] in E2. exact E2.
      + exfalso. destruct sp as [|z sp]; [congruence|].
        cbn [app] in E2. injection E2 as E2 _. subst z.
        apply Forall_inv in Hs. destruct Hs as [Ya Ys].
        rewrite E1 in Hword. apply forallb_app_head in Hword.
        destruct (space_classes y Ya Ys) as [Yw _]. congruence. }
  (* after the whitespace comes a digit *)
  destruct ch as [|d ch]; [congruence|].
  apply forallb_head in Hch.
  apply app_eq_app in E2. destruct E2 as [l [[E1 E2] | [E1 E2]]].
  - destruct l as [|y l].
    + cbn [app] in E2. injection E2 as E2 _. subst d. congruence.
    + cbn [app] in E2. injection E2 as E2 _. subst y.
      assert (I : In d sp) by (rewrite E1; apply in_or_app; right; left; reflexivity).
      rewrite Forall_forall in Hs. destruct (Hs _ I) as [Da Ds].
      destruct (space_classes d Da Ds) as [_ Dd]. congruence.
  - destruct l as [|y l].
    + cbn [app] in E2. injection E2 as E2 _. subst d. congruence.
    + cbn [app] in E2. injection E2 as E2 _. subst y.
      rewrite E1 in Hsp2. apply forallb_app_head in Hsp2. congruence.
Qed.

End DroppedLines.

(** X10.  A line that begins with a word of ASCII letters followed, after
    ASCII whitespace, by another letter gives no verse: a book name of more
    than one word (Song of Solomon) is never parsed, and its verses are left
    out of the collection without a notice. *)
Theorem load_bible_drops_multiword_books :
  forall (U : UnicodeData) (w sp : str) (c : Z) (rest : str) (before after : list str),
  w <> [] -> Forall (fun x => is_ascii_letter x = true) w ->
  sp <> [] -> Forall (fun y => is_ascii y = true /\ ascii_isspace y = true) sp ->
  is_ascii_letter c = true ->
  load_bible (before ++ [w ++ sp ++ c :: rest] ++ after)
  = load_bible (before ++ after).
Proof.
  intros U w sp c rest before after Hw0 Hw Hs0 Hs Hc.
  rewrite !load_bible_flat_map, !flat_map_app. cbn [flat_map].
  unfold verses_of_line at 2, parse_line.
  rewrite two_words_no_match by assumption. reflexivity.
Qed.

Lemma load_bible_drops_multiword_books_witness :
  codes "Song" <> []
  /\ Forall (fun x => is_ascii_letter x = true) (codes "Song")
  /\ codes " " <> []
  /\ Forall (fun y => is_ascii y = true /\ ascii_isspace y = true) (codes " ")
  /\ is_ascii_letter 111 = true
  /\ load_bible (U := latin1_fragment)
       ([codes "Genesis 1:1 In the beginning"]
        ++ [codes "Song" ++ codes " " ++ 111 :: codes "f Solomon 1:1 The song of songs"]
        ++ [])
     = load_bible ([codes "Genesis 1:1 In the beginning"] ++ []).
Proof.
  assert (A : codes "Song" <> []) by discriminate.
  assert (B : Forall (fun x => is_ascii_letter x = true) (codes "Song"))
    by (repeat constructor).
  assert (C : codes " " <> []) by discriminate.
  assert (D : Forall (fun y => is_ascii y = true /\ ascii_isspace y = true) (codes " "))
    by (repeat constructor).
  assert (E : is_ascii_letter 111 = true) by reflexivity.
  repeat (split; [assumption|]).
  exact (load_bible_drops_multiword_books latin1_fragment (codes "Song") (codes " ") 111
           (codes "f Solomon 1:1 The song of songs")
           [codes "Genesis 1:1 In the beginning"] [] A B C D E).
Defined.

(** ** Offsets of the matchers, in general *)

Lemma leftmost_scan_count (s sub : str) : forall ms from,
  0 <= from -> leftmost_scan s sub from ms -> ms <> [] ->
  from + len ms * len sub <= len s.
Proof.
  induction ms as [|[st l] ms IH]; intros from Hf L N; [congruence|].
  cbn [leftmost_scan] in L. destruct L as [Hl [Hs [Ho [_ L]]]].
  pose proof (occurs_at_fits _ _ _ Ho) as Fit.
  pose proof (len_nonneg sub) as S0.
  replace (len ((st, l) :: ms)) with (1 + len ms) by (unfold len; simpl length; lia).
  destruct ms as [|m ms].
  - change (len (@nil (Z * Z))) with 0. lia.
  - subst l. specialize (IH (st + len sub) ltac:(lia) L ltac:(discriminate)). lia.
Qed.

Section UppercasedOffsets.

Context {U : UnicodeData}.

Lemma scan_intervals_inside (text_u needle : str) (fuel : nat) (ms : list (Z * Z)) :
  scan_loop fuel text_u needle (scan_start text_u needle) = Some ms ->
  Forall (fun m => 0 <= fst m /\ snd m = len needle /\ 0 < snd m
                   /\ fst m + snd m <= len text_u) ms
  /\ len ms * len needle <= len text_u.
Proof.
  intro H. pose proof (scan_needle_nonempty _ _ _ _ H) as N.
  pose proof (len_pos _ N) as Lp.
  apply scan_from_start in H. destruct H as [L _]. split.
  - pose proof (leftmost_scan_Forall _ _ _ _ L) as F.
    eapply Forall_impl; [|exact F].
    intros [st l] [A [B O]]. cbn [fst snd] in *.
    pose proof (occurs_at_fits _ _ _ O). lia.
  - destruct ms as [|m ms].
    + change (len (@nil (Z * Z))) with 0. pose proof (len_nonneg text_u). lia.
    + pose proof (leftmost_scan_count _ _ _ 0 (Z.le_refl 0) L ltac:(discriminate)). lia.
Qed.

End UppercasedOffsets.

(** X11.  Whatever the text and the term, the intervals that the direct
    matcher and the reversed matcher return are intervals of the uppercased
    text: their start is not negative, their length is the length of the
    uppercased term and is positive, and they end inside [text.upper()];
    there are at most [len(text.upper()) / len(term.upper())] of them. *)
Theorem matcher_intervals_inside_uppercased_text :
  forall (U : UnicodeData) (text_ term : str) (fuel : nat) (ms : list (Z * Z)),
  find_direct_fuel fuel text_ term = Some ms
  \/ find_reversed_fuel fuel text_ term = Some ms ->
  Forall (fun m => 0 <= fst m /\ snd m = len (upper term) /\ 0 < snd m
                   /\ fst m + snd m <= len (upper text_)) ms
  /\ len ms * len (upper term) <= len (upper text_).
Proof.
  intros U text_ term fuel ms [H | H].
  - apply scan_intervals_inside in H. exact H.
  - apply scan_intervals_inside in H.
    replace (len (rev (upper term))) with (len (upper term)) in H
      by (unfold len; rewrite length_rev; reflexivity).
    exact H.
Qed.

Lemma matcher_intervals_inside_uppercased_text_witness :
  (find_direct_fuel (U := latin1_fragment) 5 [223; 97; 223] (codes "s") = Some [(0, 1); (1, 1); (3, 1); (4, 1)]
   \/ find_reversed_fuel (U := latin1_fragment) 5 [223; 97; 223] (codes "s")
      = Some [(0, 1); (1, 1); (3, 1); (4, 1)])
  /\ Forall (fun m => 0 <= fst m /\ snd m = len (upper (U := latin1_fragment) (codes "s"))
                      /\ 0 < snd m
                      /\ fst m + snd m <= len (upper (U := latin1_fragment) [223; 97; 223]))
       [(0, 1); (1, 1); (3, 1); (4, 1)]
  /\ len [(0, 1); (1, 1); (3, 1); (4, 1)] * len (upper (U := latin1_fragment) (codes "s"))
     <= len (upper (U := latin1_fragment) [223; 97; 223]).
Proof.
  assert (H : find_direct_fuel (U := latin1_fragment) 5 [223; 97; 223] (codes "s")
              = Some [(0, 1); (1, 1); (3, 1); (4, 1)]
              \/ find_reversed_fuel (U := latin1_fragment) 5 [223; 97; 223] (codes "s")
                 = Some [(0, 1); (1, 1); (3, 1); (4, 1)])
    by (left; vm_compute; reflexivity).
  split; [exact H|].
  exact (matcher_intervals_inside_uppercased_text latin1_fragment [223; 97; 223] (codes "s")
           5 [(0, 1); (1, 1); (3, 1); (4, 1)] H).
Defined.

(** ** The text of a parsed verse *)

(** Before a continuation that accepts anywhere, the plus takes every
    character it can. *)
Lemma re_plus_longest (p : Z -> bool) (k : matcher) :
  (forall s pos, accepts k s pos) ->
  forall (s : str) (pos : Z) (r : list Z),
  re_plus p k s pos = Some r ->
  exists a b, s = a ++ b /\ a <> [] /\ forallb p a = true
    /\ k b (pos + len a) = Some r
    /\ (b = [] \/ exists c b', b = c :: b' /\ p c = false).
Proof.
  intros T s pos r H. unfold re_plus in H.
  apply re_one_sound in H. destruct H as [c [s' [-> [E H]]]].
  apply re_star_longest in H; [|exact T].
  destruct H as [a [b [-> [F [K M]]]]].
  exists (c :: a), b. split; [reflexivity|]. split; [discriminate|].
  split; [simpl; rewrite E; exact F|]. split; [|exact M].
  replace (pos + len (c :: a)) with (pos + 1 + len a); [exact K|].
  unfold len. simpl length. lia.
Qed.

Section VerseText.

Context {U : UnicodeData}.

(** The whitespace before the text is taken whole, and the text runs to
    the end of the line. *)
Lemma pattern_match_text (line : str) (m : list Z) :
  pattern_match line = Some m ->
  exists before sp3 txt tail,
    line = before ++ sp3 ++ txt ++ tail
    /\ sp3 <> [] /\ forallb re_space sp3 = true
    /\ forallb re_dot txt = true
    /\ (txt ++ tail = [] \/ exists c t, txt ++ tail = c :: t /\ re_space c = false)
    /\ (tail = [] \/ exists t, tail = 10 :: t)
    /\ group line m 4 = txt.
Proof.
  unfold pattern_match, pattern. intro H.
  apply re_mark_sound in H. destruct H as [m1 [-> H]].
  apply re_opt_sound in H. destruct H as [num [s1 [-> [_ H]]]].
  apply re_star_sound in H. destruct H as [sp1 [s2 [-> [_ H]]]].
  apply re_plus_sound in H. destruct H as [word [s3 [-> [_ [_ H]]]]].
  apply re_mark_sound in H. destruct H as [m2 [-> H]].
  apply re_plus_sound in H. destruct H as [sp2 [s4 [-> [_ [_ H]]]]].
  apply re_mark_sound in H. destruct H as [m3 [-> H]].
  apply re_plus_sound in H. destruct H as [ch [s5 [-> [_ [_ H]]]]].
  apply re_mark_sound in H. destruct H as [m4 [-> H]].
  apply re_one_sound in H. destruct H as [c [s6 [-> [_ H]]]].
  apply re_mark_sound in H. destruct H as [m5 [-> H]].
  apply re_plus_sound in H. destruct H as [vs [s7 [-> [_ [_ H]]]]].
  apply re_mark_sound in H. destruct H as [m6 [-> H]].
  apply re_plus_longest in H.
  2:{ intros s pos. apply re_mark_complete, re_star_accepts_below,
        re_mark_complete, re_end_accepts. }
  destruct H as [sp3 [s8 [-> [Hs30 [Hs3 [H Hmax3]]]]]].
  apply re_mark_sound in H. destruct H as [m7 [-> H]].
  apply re_star_longest in H;
    [|intros; apply re_mark_complete, re_end_accepts].
  destruct H as [txt [tail [-> [Ht [H Hmax]]]]].
  apply re_mark_sound in H. destruct H as [m8 [-> H]].
  injection H as <-.
  exists (num ++ sp1 ++ word ++ sp2 ++ ch ++ [c] ++ vs), sp3, txt, tail.
  split; [rewrite <- !app_assoc; reflexivity|].
  split; [exact Hs30|]. split; [exact Hs3|]. split; [exact Ht|].
  split; [exact Hmax3|].
  split.
  { destruct Hmax as [->|[d [t [-> Hd]]]]; [left; reflexivity|].
    right. exists t. unfold re_dot in Hd.
    destruct (Z.eqb_spec d 10); [subst; reflexivity | discriminate]. }
  unfold group. cbn [nth Nat.mul Nat.add Nat.sub].
  apply py_slice_piece with (a := num ++ sp1 ++ word ++ sp2 ++ ch ++ [c] ++ vs ++ sp3)
                            (c := tail).
  - rewrite <- !app_assoc. reflexivity.
  - rewrite !len_app. change (len [c]) with 1. lia.
  - reflexivity.
Qed.

End VerseText.

(** X12.  The text of a verse parsed by [load_bible] holds no newline, and
    does not begin with a whitespace character: the whitespace after the
    verse number is taken whole, the line terminator included when nothing
    else follows. *)
Theorem load_bible_text_is_stripped :
  forall (U : UnicodeData) (lines : list str) (v : Verse),
  In v (load_bible lines) ->
  ~ In 10 (text v)
  /\ (text v = [] \/ exists c t, text v = c :: t /\ re_space c = false).
Proof.
  intros U lines v H. apply in_load_bible in H. destruct H as [line [_ H]].
  unfold parse_line in H.
  destruct (pattern_match line) as [m|] eqn:M; [|discriminate].
  injection H as <-. cbn [text].
  apply pattern_match_text in M.
  destruct M as (before & sp3 & txt & tail & _ & _ & _ & Ht & Hmax & _ & G).
  rewrite G. split.
  - intro I. rewrite forallb_forall in Ht. apply Ht in I. discriminate I.
  - destruct txt as [|c t]; [left; reflexivity|]. right. exists c, t.
    split; [reflexivity|].
    destruct Hmax as [E | [d [t' [E Hd]]]]; [discriminate E|].
    cbn [app] in E. injection E as -> _. exact Hd.
Qed.

Lemma load_bible_text_is_stripped_witness :
  let v := {| book := codes "Genesis"; chapter := codes "1"; verse := codes "3";
              text := codes "And God said" |} in
  In v (load_bible (U := latin1_fragment) [codes "Genesis 1:3    And God said" ++ [10]])
  /\ ~ In 10 (text v)
  /\ (text v = [] \/ exists c t, text v = c :: t /\ re_space c = false).
Proof.
  intro v.
  assert (H : In v (load_bible (U := latin1_fragment)
                      [codes "Genesis 1:3    And God said" ++ [10]]))
    by (vm_compute; left; reflexivity).
  split; [exact H|].
  exact (load_bible_text_is_stripped latin1_fragment _ v H).
Defined.

(** ** The order of the intervals given to the highlighter *)

Lemma insert_by_start_comm (a b : Z * Z) (l : list (Z * Z)) :
  fst a <> fst b ->
  insert_by_start a (insert_by_start b l) = insert_by_start b (insert_by_start a l).
Proof.
  intro N. induction l as [|x l IH]; cbn [insert_by_start].
  - destruct (Z.leb_spec (fst a) (fst b)), (Z.leb_spec (fst b) (fst a));
      try lia; reflexivity.
  - destruct (Z.leb_spec (fst b) (fst x)) as [Bx|Bx],
             (Z.leb_spec (fst a) (fst x)) as [Ax|Ax]; cbn [insert_by_start].
    + destruct (Z.leb_spec (fst a) (fst b)), (Z.leb_spec (fst b) (fst a)); try lia.
      * destruct (Z.leb_spec (fst b) (fst x)); [reflexivity | lia].
      * destruct (Z.leb_spec (fst a) (fst x)); [reflexivity | lia].
    + destruct (Z.leb_spec (fst a) (fst b)); [lia|].
      destruct (Z.leb_spec (fst a) (fst x)); [lia|].
      destruct (Z.leb_spec (fst b) (fst x)); [reflexivity | lia].
    + destruct (Z.leb_spec (fst b) (fst a)); [lia|].
      destruct (Z.leb_spec (fst b) (fst x)); [lia|].
      destruct (Z.leb_spec (fst a) (fst x)); [reflexivity | lia].
    + destruct (Z.leb_spec (fst a) (fst x)); [lia|].
      destruct (Z.leb_spec (fst b) (fst x)); [lia|].
      rewrite IH. reflexivity.
Qed.

(** The sort does not depend on the order of a list whose starts are all
    different. *)
Lemma sorted_by_start_permutation (l l' : list (Z * Z)) :
  Permutation l l' -> NoDup (map fst l) -> sorted_by_start l = sorted_by_start l'.
Proof.
  induction 1 as [|x l l' P IH|x y l|l l' l'' P1 IH1 P2 IH2]; intro D.
  - reflexivity.
  - cbn [sorted_by_start]. rewrite IH; [reflexivity|].
    cbn [map] in D. apply NoDup_cons_iff in D. apply D.
  - cbn [sorted_by_start]. apply insert_by_start_comm.
    cbn [map] in D. apply NoDup_cons_iff in D. destruct D as [D _].
    intro E. apply D. left. symmetry. exact E.
  - rewrite IH1 by exact D. apply IH2.
    eapply Permutation_NoDup; [|exact D]. apply Permutation_map, P1.
Qed.

(** X13.  The highlighter sorts its intervals by start: when no two
    intervals start at the same offset, its output does not depend on the
    order in which they are given. *)
Theorem highlight_text_order_insensitive :
  forall (text_ css_class : str) (ms ms' : list (Z * Z)),
  Permutation ms ms' ->
  NoDup (map fst ms) ->
  highlight_text text_ ms css_class = highlight_text text_ ms' css_class.
Proof.
  intros text_ css_class ms ms' P D.
  rewrite !highlight_text_marked, (sorted_by_start_permutation ms ms' P D).
  reflexivity.
Qed.

Lemma highlight_text_order_insensitive_witness :
  Permutation [(6, 3); (1, 1); (0, 1)] [(0, 1); (6, 3); (1, 1)]
  /\ NoDup (map fst [(6, 3); (1, 1); (0, 1)])
  /\ highlight_text (codes "a<b & God>") [(6, 3); (1, 1); (0, 1)] (codes "hl")
     = highlight_text (codes "a<b & God>") [(0, 1); (6, 3); (1, 1)] (codes "hl").
Proof.
  assert (P : Permutation [(6, 3); (1, 1); (0, 1)] [(0, 1); (6, 3); (1, 1)]).
  { apply Permutation_sym.
    apply (Permutation_cons_app [(6, 3); (1, 1)] [] (0, 1)).
    rewrite app_nil_r. apply Permutation_refl. }
  assert (D : NoDup (map fst [(6, 3); (1, 1); (0, 1)])).
  { cbn [map fst]. constructor; [simpl; intros [H|[H|[]]]; discriminate H|].
    constructor; [simpl; intros [H|[]]; discriminate H|].
    constructor; [simpl; tauto | constructor]. }
  split; [exact P|]. split; [exact D|].
  exact (highlight_text_order_insensitive (codes "a<b & God>") (codes "hl") _ _ P D).
Defined.

(** ** What the scan reports and what it leaves *)

(** An occurrence from [from] on is reported, or begins inside a reported
    interval. *)
Lemma leftmost_scan_covers (s sub : str) : sub <> [] ->
  forall ms from p,
  leftmost_scan s sub from ms -> from <= p -> occurs_at s sub p ->
  exists m, In m ms /\ fst m <= p < fst m + snd m.
Proof.
  intros N. pose proof (len_pos _ N) as Lp.
  induction ms as [|[st l] ms IH]; intros from p L Hp O; cbn [leftmost_scan] in L.
  - exfalso. apply (L p Hp O).
  - destruct L as [Hl [Hs [Ho [Hn L]]]].
    destruct (Z.lt_ge_cases p st) as [Lt|Ge].
    + exfalso. apply (Hn p); [lia | exact O].
    + destruct (Z.lt_ge_cases p (st + l)) as [In_|Out].
      * exists (st, l). split; [left; reflexivity | simpl; lia].
      * destruct (IH (st + l) p L Out O) as [m [I B]].
        exists m. split; [right; exact I | exact B].
Qed.

Section ScanReports.

Context {U : UnicodeData}.

Lemma scan_reports (text_u needle : str) (fuel : nat) (ms : list (Z * Z)) :
  scan_loop fuel text_u needle (scan_start text_u needle) = Some ms ->
  Forall (fun m => py_slice text_u (fst m) (fst m + snd m) = needle) ms
  /\ (forall p, occurs_at text_u needle p ->
        exists m, In m ms /\ fst m <= p < fst m + snd m)
  /\ (ms = [] <-> forall p, ~ occurs_at text_u needle p).
Proof.
  intro H. pose proof (scan_needle_nonempty _ _ _ _ H) as N.
  apply scan_from_start in H. destruct H as [L _].
  assert (C : forall p, occurs_at text_u needle p ->
                exists m, In m ms /\ fst m <= p < fst m + snd m).
  { intros p O. apply (leftmost_scan_covers _ _ N ms 0 p L); [|exact O].
    destruct O as [[O _] _]. exact O. }
  split; [|split; [exact C|]].
  - pose proof (leftmost_scan_Forall _ _ _ _ L) as F.
    eapply Forall_impl; [|exact F].
    intros [st l] [_ [B O]]. cbn [fst snd] in *. subst l.
    apply occurs_at_slice, O.
  - split.
    + intros -> p O. destruct (C p O) as [m [[] _]].
    + intro No. destruct ms as [|[st l] ms]; [reflexivity|]. exfalso.
      cbn [leftmost_scan] in L. destruct L as [_ [_ [O _]]]. apply (No st O).
Qed.

End ScanReports.

(** X14.  Whatever the text and the term, in a list that the direct
    matcher returns every interval cuts the uppercased term out of the
    uppercased text; every occurrence of the uppercased term in the
    uppercased text is reported or begins inside a reported interval; and the
    list is empty exactly when the uppercased term does not occur.  The same
    holds of the reversed matcher for the uppercased term reversed. *)
Theorem matchers_report_every_free_occurrence :
  forall (U : UnicodeData) (text_ term : str),
  (forall fuel ms, find_direct_fuel fuel text_ term = Some ms ->
     Forall (fun m => py_slice (upper text_) (fst m) (fst m + snd m) = upper term) ms
     /\ (forall p, occurs_at (upper text_) (upper term) p ->
           exists m, In m ms /\ fst m <= p < fst m + snd m)
     /\ (ms = [] <-> forall p, ~ occurs_at (upper text_) (upper term) p))
  /\ (forall fuel ms, find_reversed_fuel fuel text_ term = Some ms ->
     Forall (fun m => py_slice (upper text_) (fst m) (fst m + snd m) = rev (upper term)) ms
     /\ (forall p, occurs_at (upper text_) (rev (upper term)) p ->
           exists m, In m ms /\ fst m <= p < fst m + snd m)
     /\ (ms = [] <-> forall p, ~ occurs_at (upper text_) (rev (upper term)) p)).
Proof.
  intros U text_ term. split; intros fuel ms H; apply scan_reports in H; exact H.
Qed.

(** ** Direct matches and ELS results at skip 1 *)

Lemma firstn_as_nths : forall (l : str) (n : nat),
  (n <= length l)%nat -> map (fun k => nth k l 0) (seq 0 n) = firstn n l.
Proof.
  induction l as [|a l IH]; intros n H.
  - simpl in H. replace n with 0%nat by lia. reflexivity.
  - destruct n as [|n]; [reflexivity|].
    cbn [seq map firstn nth]. f_equal.
    rewrite <- seq_shift, map_map. cbn [nth]. apply IH. simpl in H. lia.
Qed.

(** Sampling at skip 1 reads a slice. *)
Lemma sample_skip_1 (l : str) (s L : Z) :
  0 <= s -> 0 <= L -> s + L <= len l ->
  map (fun i => char_at l (s + i * 1)) (py_range 0 L) = py_slice l s (s + L).
Proof.
  intros Hs HL Hfit. unfold py_range, py_slice, adjust_index. rewrite map_map.
  destruct (Z.ltb_spec s 0); [lia|]. destruct (Z.ltb_spec (s + L) 0); [lia|].
  rewrite !Z.min_l by lia.
  replace (Z.to_nat (s + L - s)) with (Z.to_nat L) by lia.
  replace (Z.to_nat (L - 0)) with (Z.to_nat L) by lia.
  rewrite <- firstn_as_nths.
  - apply map_ext. intro k. rewrite nth_skipn. unfold char_at. f_equal. lia.
  - rewrite length_skipn. unfold len in Hfit. lia.
Qed.

(** X15.  In a verse made of ASCII letters only, every match of the
    direct matcher is also a result of the ELS matcher: the result at skip 1
    whose positions are the offsets of the match, whenever the bound on the
    skip is at least 1. *)
Theorem direct_matches_are_els_results_at_skip_1 :
  forall (U : UnicodeData) (text_ term : str) (max_skip : Z) (fuel : nat)
         (ms : list (Z * Z)) (m : Z * Z),
  forallb is_ascii_letter text_ = true ->
  1 <= max_skip ->
  find_direct_fuel fuel text_ term = Some ms ->
  In m ms ->
  In {| skip := 1;
        positions := map (fun i => fst m + i * 1) (py_range 0 (snd m));
        cleaned := text_ |}
     (find_els text_ term max_skip).
Proof.
  intros U text_ term max_skip fuel ms m Hl Hk H I.
  pose proof (scan_needle_nonempty _ _ _ _ H) as N.
  pose proof (len_pos _ N) as Lp.
  apply find_direct_fuel_sound in H. destruct H as [L _].
  pose proof (leftmost_scan_Forall _ _ _ _ L) as F.
  rewrite Forall_forall in F. destruct (F m I) as [A [B O]].
  pose proof (occurs_at_fits _ _ _ O) as Fit.
  pose proof (occurs_at_slice _ _ _ O) as Sl.
  assert (C : filter is_ascii_letter text_ = text_) by (apply forallb_filter_id, Hl).
  assert (Sg : single_upper text_).
  { apply single_upper_ascii. rewrite <- C. apply cleaned_ascii. }
  rewrite (upper_len_single text_ Sg) in Fit.
  rewrite B.
  change {| skip := 1;
            positions := map (fun i => fst m + i * 1) (py_range 0 (len (upper term)));
            cleaned := text_ |}
    with (els_result_of text_ (len (upper term)) 1 (fst m)).
  rewrite find_els_flat_map. cbv zeta. rewrite C.
  apply in_flat_map. exists 1. split; [apply in_py_range; lia|].
  apply els_starts_complete.
  - apply py_range_sorted.
  - apply in_py_range. lia.
  - split; [lia|].
    rewrite sample_skip_1; [exact Sl | lia | lia |].
    rewrite (upper_len_single text_ Sg). lia.
Qed.

Lemma direct_matches_are_els_results_at_skip_1_witness :
  forallb is_ascii_letter (codes "InthebeginningGod") = true
  /\ 1 <= 50
  /\ find_direct_fuel (U := latin1_fragment) 3 (codes "InthebeginningGod") (codes "god")
     = Some [(14, 3)]
  /\ In (14, 3) [(14, 3)]
  /\ In {| skip := 1;
           positions := map (fun i => fst (14, 3) + i * 1) (py_range 0 (snd (14, 3)));
           cleaned := codes "InthebeginningGod" |}
        (find_els (U := latin1_fragment) (codes "InthebeginningGod") (codes "god") 50).
Proof.
  assert (A : forallb is_ascii_letter (codes "InthebeginningGod") = true) by reflexivity.
  assert (B : 1 <= 50) by lia.
  assert (C : find_direct_fuel (U := latin1_fragment) 3 (codes "InthebeginningGod")
                (codes "god") = Some [(14, 3)]) by (vm_compute; reflexivity).
  assert (D : In (14, 3) [(14, 3)]) by (left; reflexivity).
  repeat (split; [assumption|]).
  exact (direct_matches_are_els_results_at_skip_1 latin1_fragment
           (codes "InthebeginningGod") (codes "god") 50 3 [(14, 3)] (14, 3) A B C D).
Defined.

(** ** No ELS result twice *)

Lemma StronglySorted_NoDup {A} (R : A -> A -> Prop) (l : list A) :
  (forall x, ~ R x x) -> StronglySorted R l -> NoDup l.
Proof.
  intro Irr. induction 1 as [|x l _ IH F]; constructor; [|exact IH].
  intro I. rewrite Forall_forall in F. apply (Irr x), F, I.
Qed.

Lemma els_result_of_injective (cleaned_ : str) (length_ : Z) (h h' : Z * Z) :
  1 <= length_ ->
  els_result_of cleaned_ length_ (fst h) (snd h)
  = els_result_of cleaned_ length_ (fst h') (snd h') ->
  h = h'.
Proof.
  intros HL E. unfold els_result_of in E. injection E as Ek Ep.
  assert (N : forall k s, map (fun i => s + i * k) (py_range 0 length_) <> []).
  { intros k s Hn. apply map_eq_nil in Hn.
    assert (I : In 0 (py_range 0 length_)) by (apply in_py_range; lia).
    rewrite Hn in I. contradiction. }
  pose proof (hit_first_position length_ (fst h) (snd h) (N _ _)) as H1.
  pose proof (hit_first_position length_ (fst h') (snd h') (N _ _)) as H2.
  rewrite Ep, H2 in H1. destruct h, h'. simpl in *. congruence.
Qed.

(** X16.  For a term that is not empty, the ELS matcher reports no result
    twice: results differ in their skip or in their first position. *)
Theorem find_els_no_duplicates :
  forall (U : UnicodeData) (text_ term : str) (max_skip : Z),
  term <> [] -> NoDup (find_els text_ term max_skip).
Proof.
  intros U text_ term max_skip N.
  destruct (find_els_hits text_ term max_skip) as [hits [E [S _]]].
  rewrite E.
  pose proof (len_pos _ (upper_nonempty term N)) as Lp.
  assert (D : NoDup hits).
  { apply (StronglySorted_NoDup skip_then_start); [|exact S].
    intros x [H | [_ H]]; lia. }
  clear E S. induction D as [|h hits Nin D IH]; [constructor|].
  cbn [map]. constructor; [|exact IH].
  intro I. apply in_map_iff in I. destruct I as [h' [Eq I]].
  apply els_result_of_injective in Eq; [|lia]. subst h'. exact (Nin I).
Qed.

Lemma find_els_no_duplicates_witness :
  codes "aa" <> []
  /\ NoDup (find_els (U := latin1_fragment) (codes "a a a a a") (codes "aa") 50).
Proof.
  assert (N : codes "aa" <> []) by discriminate.
  split; [exact N|].
  exact (find_els_no_duplicates latin1_fragment (codes "a a a a a") (codes "aa") 50 N).
Defined.
